(** * Raven controller utilities (pkg/yurtmanager/controller/raven/utils)

    A shallow embedding of [utils.go] and the properties of its helpers:
    node address lookups, endpoint candidates, the feature flags of the
    global config map, port validation and the configuration hash.

    Go strings are byte strings, here [string]; Go maps with string keys used
    by lookup only are [gmap string _]; maps whose iteration order matters
    are association lists.  A Go result [(v, err)] is a pair whose second
    component is [None] for [nil]. *)

From Corelib Require PrimFloat.
From Stdlib Require Import ZArith Lia Ascii String.
From stdpp Require Import base option list gmap strings pretty sorting.

Set Warnings "-register-all".

Local Open Scope string_scope.
Local Open Scope Z_scope.

(** ** Collaborators outside the file *)

(** [net.ParseIP]: the parsed address, or [None] for Go's [nil] when the text
    is not a valid IP literal. *)
Class NetLib := {
  ParseIP : string → option (list Z)
}.

(** The constants of [pkg/apis/raven] and [pkg/apis/raven/v1beta1] that the
    helpers name. *)
Class RavenAPI := {
  LabelNodeProviderPublicIP : string;
  LabelEndpointCandidate : string;
  Tunnel : string;
  DefaultTunnelServerExposedPort : Z
}.

(** ** Constants of the file *)

Definition WorkingNamespace := "kube-system".
Definition RavenGlobalConfig := "raven-cfg".
Definition RavenEnableProxy := "enable-l7-proxy".
Definition RavenEnableTunnel := "enable-l3-tunnel".
Definition DefaultEnableL7Proxy := false.
Definition DefaultEnableL3Tunnel := true.
Definition ConfigCreationTimestampKey := "config-creation-time".

(** ** Nodes *)

(** [corev1.NodeInternalIP] *)
Definition NodeInternalIP := "InternalIP".

Record NodeAddress := {
  addrType : string;
  Address : string
}.

(** The fields of [corev1.Node] that the helpers read.  [CreationTimestamp]
    holds [node.CreationTimestamp.Unix()]; a nil [Labels] map reads as the
    empty map. *)
Record Node := {
  Name : string;
  Labels : gmap string string;
  CreationTimestamp : Z;
  Addresses : list NodeAddress
}.

(** The [error] values the helpers build with [fmt.Errorf], by their format
    and arguments. *)
Inductive error :=
| ErrNoPublicIPLabel (label node : string)
    (* "failed to get public ip, no label %s on node %s" *)
| ErrInvalidPublicIP (label ip node : string)
    (* "failed to get public ip, invalid public IP label %s, %s on node %s" *)
| ErrNoCandidateLabel (label : string) (labels : gmap string string)
    (* "node does not have candidate label %s %v" *)
| ErrMissingPublicIP (label : string) (cause : error) (labels : gmap string string).
    (* "node missing public ip with label %s: %w %v" *)

(** [ravenv1beta1.Endpoint] *)
Record Endpoint := {
  NodeName : string;
  PublicIP : string;
  UnderNAT : bool;
  epType : string;
  Port : Z;
  Config : gmap string string
}.

(** The test of the loop body of [GetNodeInternalIP]. *)
Definition isInternalIP `{NetLib} (addr : NodeAddress) : bool :=
  bool_decide (addrType addr = NodeInternalIP) && bool_decide (is_Some (ParseIP (Address addr))).

(** The [for ... range] loop with its [break]; [ip] is the variable the loop
    assigns, returned as it is when the range is exhausted. *)
Fixpoint internalIPLoop `{NetLib} (ip : string) (addrs : list NodeAddress) : string :=
  match addrs with
  | [] => ip
  | addr :: rest => if isInternalIP addr then Address addr else internalIPLoop ip rest
  end.

Definition GetNodeInternalIP `{NetLib} (node : Node) : string :=
  internalIPLoop "" (Addresses node).

Definition GetEdgeNodePublicIP `{NetLib, RavenAPI} (node : Node) : string * option error :=
  match Labels node !! LabelNodeProviderPublicIP with
  | None => ("", Some (ErrNoPublicIPLabel LabelNodeProviderPublicIP (Name node)))
  | Some ip =>
      match ParseIP ip with
      | None => ("", Some (ErrInvalidPublicIP LabelNodeProviderPublicIP ip (Name node)))
      | Some _ => (ip, None)
      end
  end.

Definition IsNodeEndpointCandidate `{RavenAPI} (node : Node) : bool :=
  match Labels node !! LabelEndpointCandidate with
  | Some value => bool_decide (value = "true")
  | None => false
  end.

(** [fmt.Sprintf("%d", n)] for an integer. *)
Definition formatInt (n : Z) : string := pretty n.

Definition TryCreateActiveEndpointCandidate `{NetLib, RavenAPI} (node : Node)
  : option Endpoint * option error :=
  match Labels node !! LabelEndpointCandidate with
  | None => (None, Some (ErrNoCandidateLabel LabelEndpointCandidate (Labels node)))
  | Some _ =>
      match GetEdgeNodePublicIP node with
      | (_, Some err) =>
          (None, Some (ErrMissingPublicIP LabelNodeProviderPublicIP err (Labels node)))
      | (publicIP, None) =>
          let cfg : gmap string string :=
            <[ConfigCreationTimestampKey := formatInt (CreationTimestamp node)]> ∅ in
          (Some {| NodeName := Name node;
                   PublicIP := publicIP;
                   UnderNAT := false;
                   epType := Tunnel;
                   Port := DefaultTunnelServerExposedPort;
                   Config := cfg |}, None)
      end
  end.

(** ** Package [strings] *)

Definition byteZ (c : ascii) : Z := Z.of_N (N_of_ascii c).
Definition byteOfZ (z : Z) : ascii := ascii_of_N (Z.to_N z).

Fixpoint bytesOf (s : string) : list Z :=
  match s with
  | EmptyString => []
  | String c rest => byteZ c :: bytesOf rest
  end.

Fixpoint mapBytes (f : ascii → ascii) (s : string) : string :=
  match s with
  | EmptyString => EmptyString
  | String c rest => String (f c) (mapBytes f rest)
  end.

(** The Unicode tables behind two library functions:
    [strings.Map(unicode.ToLower, s)], which [strings.ToLower] falls back to
    for a string that is not pure ASCII, and the UTF-8 coercion below. *)
Class UnicodeLib := {
  mapToLower : string → string;
  (** what [encoding/json] writes for a string: the string itself when it is
      valid UTF-8, each invalid byte replaced by U+FFFD otherwise *)
  coerceUTF8 : string → string
}.

Definition isUpper (c : ascii) : bool := (65 <=? byteZ c) && (byteZ c <=? 90).
Definition lowerByte (c : ascii) : ascii :=
  if isUpper c then byteOfZ (byteZ c + 32) else c.

(** [strings.ToLower]: the ASCII fast path of the standard library, written
    out; [utf8.RuneSelf] is 0x80. *)
Definition ToLower `{UnicodeLib} (s : string) : string :=
  let isASCII := forallb (λ b, b <? 128) (bytesOf s) in
  let hasUpper := existsb (λ b, (65 <=? b) && (b <=? 90)) (bytesOf s) in
  if isASCII then
    if negb hasUpper then s else mapBytes lowerByte s
  else mapToLower s.

(** ** The feature flags of the global config map *)

Record ConfigMap := {
  Data : gmap string string
}.

(** [client.Client], by the one method used: [Get] on a namespace and a name
    gives the stored config map, or [None] when it returns an error. *)
Record Client := {
  Get : string → string → option ConfigMap
}.

(** The result is the pair [(enableProxy, enableTunnel)]. *)
Definition CheckServer `{UnicodeLib} (client : Client) : bool * bool :=
  let enableTunnel := DefaultEnableL3Tunnel in
  let enableProxy := DefaultEnableL7Proxy in
  match Get client WorkingNamespace RavenGlobalConfig with
  | None => (enableProxy, enableTunnel)
  | Some cm =>
      let enableProxy :=
        match Data cm !! RavenEnableProxy with
        | Some val => if bool_decide (ToLower val = "true") then true else enableProxy
        | None => enableProxy
        end in
      let enableTunnel :=
        match Data cm !! RavenEnableTunnel with
        | Some val => if bool_decide (ToLower val = "true") then true else enableTunnel
        | None => enableTunnel
        end in
      (enableProxy, enableTunnel)
  end.

(** ** Package [strconv] *)

Inductive NumError := ErrSyntax | ErrRange.

Definition isDigit (c : ascii) : bool := (48 <=? byteZ c) && (byteZ c <=? 57).
Definition digitOf (c : ascii) : Z := byteZ c - 48.

(** The loop of [Atoi]'s fast path: [n = n*10 + int(ch)], a syntax error
    ([None]) on a byte that is not a digit. *)
Fixpoint atoiLoop (n : Z) (s : string) : option Z :=
  match s with
  | EmptyString => Some n
  | String ch rest => if isDigit ch then atoiLoop (n * 10 + digitOf ch) rest else None
  end.

(** [maxUint64 = 1<<64 - 1]; [uintCutoff = maxUint64/10 + 1], the smallest
    number [n] such that [n*10] leaves 64 bits; [intCutoff = 1<<63]. *)
Definition maxUint64 : Z := 18446744073709551615.
Definition uintCutoff : Z := 1844674407370955162.
Definition intCutoff : Z := 9223372036854775808.

(** The loop of [ParseUint(s, 10, 64)]: it stops with a range error as soon
    as the value leaves 64 bits. *)
Fixpoint parseUintLoop (n : Z) (s : string) : Z * option NumError :=
  match s with
  | EmptyString => (n, None)
  | String c rest =>
      if negb (isDigit c) then (0, Some ErrSyntax)
      else if n >=? uintCutoff then (maxUint64, Some ErrRange)
      else
        let n1 := n * 10 + digitOf c in
        if n1 >? maxUint64 then (maxUint64, Some ErrRange)
        else parseUintLoop n1 rest
  end.

Definition ParseUint (s : string) : Z * option NumError :=
  match s with
  | EmptyString => (0, Some ErrSyntax)
  | _ => parseUintLoop 0 s
  end.

Definition isSign (c : ascii) : bool := (byteZ c =? 43) || (byteZ c =? 45).

(** [ParseInt(s, 10, 0)] where [int] has 64 bits. *)
Definition ParseInt (s : string) : Z * option NumError :=
  match s with
  | EmptyString => (0, Some ErrSyntax)
  | String c rest =>
      let neg := byteZ c =? 45 in
      let s' := if isSign c then rest else s in
      match ParseUint s' with
      | (_, Some ErrSyntax) => (0, Some ErrSyntax)
      | (un, _) =>
          if negb neg && (un >=? intCutoff) then (intCutoff - 1, Some ErrRange)
          else if neg && (un >? intCutoff) then (- intCutoff, Some ErrRange)
          else (if neg then - un else un, None)
      end
  end.

(** The fast path of [Atoi], for a text short enough to fit [int]. *)
Definition atoiFast (s : string) : Z * option NumError :=
  match s with
  | EmptyString => (0, Some ErrSyntax)
  | String c rest =>
      let s' := if isSign c then rest else s in
      match s' with
      | EmptyString => (0, Some ErrSyntax)
      | _ =>
          match atoiLoop 0 s' with
          | None => (0, Some ErrSyntax)
          | Some n => (if byteZ c =? 45 then - n else n, None)
          end
      end
  end.

(** [strconv.Atoi] on a platform whose [int] has 64 bits. *)
Definition Atoi (s : string) : Z * option NumError :=
  let sLen := Z.of_nat (String.length s) in
  if (0 <? sLen) && (sLen <? 19) then atoiFast s else ParseInt s.

Definition IsValidPort (s : string) : bool :=
  if bool_decide (s = "") then false
  else
    match Atoi s with
    | (_, Some _) => false
    | (port, None) =>
        if (port <? 0) || (port >? 65535) then false else true
    end.

(** ** Package [crypto/sha256]: SHA-224 *)

Module sha256.

(** A [uint32] is a [Z] in [0, 2^32). *)
Definition mask32 : Z := 4294967295.
Definition add32 (a b : Z) : Z := Z.land (a + b) mask32.
Definition not32 (a : Z) : Z := Z.lxor a mask32.
(** [bits.RotateLeft32(x, -n)] *)
Definition rotr (n x : Z) : Z :=
  Z.lor (Z.shiftr x n) (Z.land (Z.shiftl x (32 - n)) mask32).

Definition _K : list Z :=
  0x428a2f98 :: 0x71374491 :: 0xb5c0fbcf :: 0xe9b5dba5 ::
  0x3956c25b :: 0x59f111f1 :: 0x923f82a4 :: 0xab1c5ed5 ::
  0xd807aa98 :: 0x12835b01 :: 0x243185be :: 0x550c7dc3 ::
  0x72be5d74 :: 0x80deb1fe :: 0x9bdc06a7 :: 0xc19bf174 ::
  0xe49b69c1 :: 0xefbe4786 :: 0x0fc19dc6 :: 0x240ca1cc ::
  0x2de92c6f :: 0x4a7484aa :: 0x5cb0a9dc :: 0x76f988da ::
  0x983e5152 :: 0xa831c66d :: 0xb00327c8 :: 0xbf597fc7 ::
  0xc6e00bf3 :: 0xd5a79147 :: 0x06ca6351 :: 0x14292967 ::
  0x27b70a85 :: 0x2e1b2138 :: 0x4d2c6dfc :: 0x53380d13 ::
  0x650a7354 :: 0x766a0abb :: 0x81c2c92e :: 0x92722c85 ::
  0xa2bfe8a1 :: 0xa81a664b :: 0xc24b8b70 :: 0xc76c51a3 ::
  0xd192e819 :: 0xd6990624 :: 0xf40e3585 :: 0x106aa070 ::
  0x19a4c116 :: 0x1e376c08 :: 0x2748774c :: 0x34b0bcb5 ::
  0x391c0cb3 :: 0x4ed8aa4a :: 0x5b9cca4f :: 0x682e6ff3 ::
  0x748f82ee :: 0x78a5636f :: 0x84c87814 :: 0x8cc70208 ::
  0x90befffa :: 0xa4506ceb :: 0xbef9a3f7 :: 0xc67178f2 ::
  [].

(** The eight words [h[0..7]] of a digest, and of the working variables
    [a..h] of a block. *)
Record state := mkState {
  h0 : Z; h1 : Z; h2 : Z; h3 : Z; h4 : Z; h5 : Z; h6 : Z; h7 : Z
}.

(** [init0_224 .. init7_224] *)
Definition init224 : state :=
  mkState 0xc1059ed8 0x367cd507 0x3070dd17 0xf70e5939
          0xffc00b31 0x68581511 0x64f98fa7 0xbefa4fa4.

(** [w[i] = p[4i]<<24 | p[4i+1]<<16 | p[4i+2]<<8 | p[4i+3]], for the sixteen
    words of a chunk. *)
Fixpoint loadWords (n : nat) (p : list Z) : list Z :=
  match n with
  | O => []
  | S n' =>
      match p with
      | b0 :: b1 :: b2 :: b3 :: rest =>
          Z.lor (Z.lor (Z.lor (Z.shiftl b0 24) (Z.shiftl b1 16)) (Z.shiftl b2 8)) b3
            :: loadWords n' rest
      | _ => []
      end
  end.

Definition word (w : list Z) (i : nat) : Z := nth i w 0.

(** The second loop of the block function, [i = 16 .. 63], started with
    [w] holding the words below [i]. *)
Fixpoint extend (steps : nat) (w : list Z) : list Z :=
  match steps with
  | O => w
  | S steps' =>
      let i := length w in
      let v1 := word w (i - 2) in
      let t1 := Z.lxor (Z.lxor (rotr 17 v1) (rotr 19 v1)) (Z.shiftr v1 10) in
      let v2 := word w (i - 15) in
      let t2 := Z.lxor (Z.lxor (rotr 7 v2) (rotr 18 v2)) (Z.shiftr v2 3) in
      extend steps' (w ++ [add32 (add32 (add32 t1 (word w (i - 7))) t2) (word w (i - 16))])
  end.

(** One round of the third loop. *)
Definition round (s : state) (k w : Z) : state :=
  let '(mkState a b c d e f g h) := s in
  let t1 :=
    add32 (add32 (add32 (add32 h
      (Z.lxor (Z.lxor (rotr 6 e) (rotr 11 e)) (rotr 25 e)))
      (Z.lxor (Z.land e f) (Z.land (not32 e) g))) k) w in
  let t2 :=
    add32 (Z.lxor (Z.lxor (rotr 2 a) (rotr 13 a)) (rotr 22 a))
          (Z.lxor (Z.lxor (Z.land a b) (Z.land a c)) (Z.land b c)) in
  mkState (add32 t1 t2) a b c (add32 d t1) e f g.

Fixpoint rounds (s : state) (ks ws : list Z) : state :=
  match ks, ws with
  | k :: ks', w :: ws' => rounds (round s k w) ks' ws'
  | _, _ => s
  end.

(** [blockGeneric] on one chunk of 64 bytes. *)
Definition block (dig : state) (chunk : list Z) : state :=
  let w := extend 48 (loadWords 16 chunk) in
  let s := rounds dig _K w in
  mkState (add32 (h0 dig) (h0 s)) (add32 (h1 dig) (h1 s))
          (add32 (h2 dig) (h2 s)) (add32 (h3 dig) (h3 s))
          (add32 (h4 dig) (h4 s)) (add32 (h5 dig) (h5 s))
          (add32 (h6 dig) (h6 s)) (add32 (h7 dig) (h7 s)).

(** [blockGeneric]'s outer loop, [for len(p) >= chunk]. *)
Fixpoint blocks (n : nat) (dig : state) (p : list Z) : state :=
  match n with
  | O => dig
  | S n' => blocks n' (block dig (take 64 p)) (drop 64 p)
  end.

(** [binary.BigEndian.PutUint64] and [PutUint32] *)
Definition be64 (x : Z) : list Z :=
  map (λ k, Z.land (Z.shiftr x k) 255) [56; 48; 40; 32; 24; 16; 8; 0].
Definition be32 (x : Z) : list Z :=
  map (λ k, Z.land (Z.shiftr x k) 255) [24; 16; 8; 0].

(** The padding [checkSum] writes: a 1 bit, 0 bits until 56 bytes mod 64,
    and the length in bits. *)
Definition padding (len : Z) : list Z :=
  let t := if len mod 64 <? 56 then 56 - len mod 64 else 64 + 56 - len mod 64 in
  (128 :: replicate (Z.to_nat (t - 1)) 0) ++ be64 (Z.land (Z.shiftl len 3) (2 ^ 64 - 1)).

(** [checkSum]: the 32 bytes of the eight state words. *)
Definition checkSum (data : list Z) : list Z :=
  let p := (data ++ padding (Z.of_nat (length data)))%list in
  let s := blocks (length p / 64) init224 p in
  flat_map be32 [h0 s; h1 s; h2 s; h3 s; h4 s; h5 s; h6 s; h7 s].

(** [Sum224]: the first [Size224 = 28] bytes of the check sum. *)
Definition Sum224 (data : list Z) : list Z := take 28 (checkSum data).

End sha256.

(** ** Package [encoding/hex] *)

Definition hextable : string := "0123456789abcdef".

Definition hexDigit (n : Z) : ascii :=
  match String.get (Z.to_nat n) hextable with
  | Some c => c
  | None => "0"%char
  end.

(** [hex.EncodeToString]: [hextable[v>>4]], [hextable[v&0x0f]] for each
    byte [v]. *)
Fixpoint EncodeToString (src : list Z) : string :=
  match src with
  | [] => EmptyString
  | v :: rest =>
      String (hexDigit (Z.shiftr v 4)) (String (hexDigit (Z.land v 15)) (EncodeToString rest))
  end.

Definition computeHash `{UnicodeLib} (target : string) : string :=
  let hash := sha256.Sum224 (bytesOf target) in
  ToLower (EncodeToString hash).

(** A lowercase hexadecimal digit, [0-9a-f]. *)
Definition isLowerHex (c : ascii) : bool :=
  ((48 <=? byteZ c) && (byteZ c <=? 57)) || ((97 <=? byteZ c) && (byteZ c <=? 102)).

Fixpoint allLowerHex (s : string) : bool :=
  match s with
  | EmptyString => true
  | String c rest => isLowerHex c && allLowerHex rest
  end.

(** ** Structured values *)

Definition float64 := PrimFloat.float.

(** A value handed over as [interface{}]: the shapes [json.Unmarshal] stores
    in an interface value ([nil], [bool], [float64], [string],
    [[]interface{}], [map[string]interface{}]) and a channel, one of the
    kinds neither [encoding/json] nor [yaml] can marshal.  The entries of a
    map are listed in the order they were inserted; no key occurs twice in a
    Go map. *)
Inductive GoValue :=
| GNil
| GBool (b : bool)
| GFloat (f : float64)
| GString (s : string)
| GSlice (elems : list GoValue)
| GMap (entries : list (string * GoValue))
| GChan.

(** The order in which the maps of one run are iterated ([MapRange],
    [MapKeys]): Go leaves it unspecified, so it is any rearrangement of the
    entries. *)
Record MapOrder := {
  iterate : ∀ A : Type, list (string * A) → list (string * A);
  iterate_perm : ∀ (A : Type) (m : list (string * A)), iterate A m ≡ₚ m
}.

(** [strings.Compare(a, b) < 0]: byte-wise lexicographic order. *)
Fixpoint stringLess (a b : string) : bool :=
  match a, b with
  | _, EmptyString => false
  | EmptyString, String _ _ => true
  | String x a', String y b' =>
      if byteZ x <? byteZ y then true
      else if byteZ y <? byteZ x then false
      else stringLess a' b'
  end.

(** Sorting ([sort.Sort], [slices.SortFunc]) with a "less" function, as an
    insertion sort. *)
Fixpoint insertBy {A : Type} (less : A → A → bool) (x : A) (l : list A) : list A :=
  match l with
  | [] => [x]
  | y :: rest => if less y x then y :: insertBy less x rest else x :: y :: rest
  end.

Definition sortBy {A : Type} (less : A → A → bool) (l : list A) : list A :=
  foldr (insertBy less) [] l.

(** Results gathered in order, up to the first error. *)
Fixpoint collectList {A E : Type} (l : list (A + E)) : list A + E :=
  match l with
  | [] => inl []
  | inl a :: rest =>
      match collectList rest with
      | inl r => inl (a :: r)
      | inr e => inr e
      end
  | inr e :: _ => inr e
  end.

Fixpoint collect {A E : Type} (l : list (string * (A + E))) : list (string * A) + E :=
  match l with
  | [] => inl []
  | (k, inl a) :: rest =>
      match collect rest with
      | inl r => inl ((k, a) :: r)
      | inr e => inr e
      end
  | (_, inr e) :: _ => inr e
  end.

(** ** Package [encoding/json] *)

(** A JSON text, by the document it denotes; the members of an object are in
    the order of the text. *)
Inductive JSON :=
| JNull
| JBool (b : bool)
| JNumber (f : float64)
| JString (s : string)
| JArray (elems : list JSON)
| JObject (members : list (string * JSON)).

Inductive MarshalError :=
| UnsupportedTypeError
| UnsupportedValueError (f : float64).

(** The encoder: a map is written with its keys sorted, a float that is NaN
    or infinite and a channel are errors. *)
Fixpoint jsonEncode `{UnicodeLib} (run : MapOrder) (v : GoValue) : JSON + MarshalError :=
  match v with
  | GNil => inl JNull
  | GBool b => inl (JBool b)
  | GFloat f =>
      if PrimFloat.is_nan f || PrimFloat.is_infinity f
      then inr (UnsupportedValueError f)
      else inl (JNumber f)
  | GString s => inl (JString (coerceUTF8 s))
  | GSlice elems =>
      match collectList (jsonEncode run <$> elems) with
      | inl js => inl (JArray js)
      | inr e => inr e
      end
  | GMap entries =>
      let sv := iterate run _ ((λ e, (e.1, jsonEncode run e.2)) <$> entries) in
      match collect (sortBy (λ i j, stringLess i.1 j.1) sv) with
      | inl members => inl (JObject ((λ m, (coerceUTF8 m.1, m.2)) <$> members))
      | inr e => inr e
      end
  | GChan => inr UnsupportedTypeError
  end.

(** [json.Marshal]: the data are [None], Go's nil slice, when encoding
    fails. *)
Definition json_Marshal `{UnicodeLib} (run : MapOrder) (v : GoValue)
  : option JSON * option MarshalError :=
  match jsonEncode run v with
  | inl j => (Some j, None)
  | inr e => (None, Some e)
  end.

(** [m[k] = x] on the entries of a map. *)
Fixpoint mapSet {A : Type} (k : string) (x : A) (m : list (string * A)) : list (string * A) :=
  match m with
  | [] => [(k, x)]
  | (k', y) :: rest =>
      if bool_decide (k' = k) then (k, x) :: rest else (k', y) :: mapSet k x rest
  end.

(** [m[k]] *)
Fixpoint mapIndex {A : Type} (k : string) (m : list (string * A)) : option A :=
  match m with
  | [] => None
  | (k', y) :: rest => if bool_decide (k' = k) then Some y else mapIndex k rest
  end.

(** Decoding into an [interface{}]: an object becomes a
    [map[string]interface{}] filled member by member, so a later member
    replaces an earlier one with the same key. *)
Fixpoint jsonDecode (j : JSON) : GoValue :=
  match j with
  | JNull => GNil
  | JBool b => GBool b
  | JNumber f => GFloat f
  | JString s => GString s
  | JArray elems => GSlice (jsonDecode <$> elems)
  | JObject members =>
      GMap (fold_left (λ m e, mapSet e.1 (jsonDecode e.2) m) members [])
  end.

Inductive UnmarshalError :=
| UnexpectedEndOfInput.  (* "unexpected end of JSON input" *)

(** [json.Unmarshal(data, &a)] for [var a interface{}]: on an error [a]
    stays nil. *)
Definition json_Unmarshal (data : option JSON) : GoValue * option UnmarshalError :=
  match data with
  | Some j => (jsonDecode j, None)
  | None => (GNil, Some UnexpectedEndOfInput)
  end.

(** ** Package [gopkg.in/yaml.v3] *)

(** What the encoder hands to the emitter: the document tree, the members
    of a mapping in the order they are emitted. *)
Inductive YNode :=
| YNull
| YBool (b : bool)
| YFloat (f : float64)
| YString (s : string)
| YSeq (items : list YNode)
| YMap (members : list (string * YNode)).

Definition LF : string := String "010"%char EmptyString.

(** The parts of the package taken as given: [keyLess] is [keyList.Less] on
    two string keys, a strict total order; [emit] is the emitter, which
    turns the document into text, and writes [null] and the flow mapping
    [{}] for the two smallest documents. *)
Class YamlLib := {
  keyLess : string → string → bool;
  keyLess_irrefl : ∀ a, keyLess a a = false;
  keyLess_trans : ∀ a b c, keyLess a b = true → keyLess b c = true → keyLess a c = true;
  keyLess_total : ∀ a b, a ≠ b → keyLess a b = true ∨ keyLess b a = true;
  emit : YNode → string;
  emit_null : emit YNull = "null" ++ LF;
  emit_empty_map : emit (YMap []) = "{}" ++ LF
}.

Inductive YamlError :=
| CannotMarshalType.  (* "cannot marshal type: chan ..." *)

(** The encoder: [mapv] sorts the keys of a map and emits each key with the
    value stored under it. *)
Fixpoint yamlEncode `{YamlLib} (run : MapOrder) (v : GoValue) : YNode + YamlError :=
  match v with
  | GNil => inl YNull
  | GBool b => inl (YBool b)
  | GFloat f => inl (YFloat f)
  | GString s => inl (YString s)
  | GSlice elems =>
      match collectList (yamlEncode run <$> elems) with
      | inl items => inl (YSeq items)
      | inr e => inr e
      end
  | GMap entries =>
      let values := (λ e, (e.1, yamlEncode run e.2)) <$> entries in
      let keys := sortBy keyLess ((iterate run _ values).*1) in
      match collect (omap (λ k, pair k <$> mapIndex k values) keys) with
      | inl members => inl (YMap members)
      | inr e => inr e
      end
  | GChan => inr CannotMarshalType
  end.

(** [yaml.Marshal]: no bytes when encoding fails. *)
Definition yaml_Marshal `{YamlLib} (run : MapOrder) (v : GoValue)
  : string * option YamlError :=
  match yamlEncode run v with
  | inl doc => (emit doc, None)
  | inr e => (EmptyString, Some e)
  end.

(** ** The configuration hash *)

(** What [klog.Errorf] is called with. *)
Inductive LogEntry :=
| LogUnmarshal (e : UnmarshalError)   (* "unmarshal: %s" *)
| LogYaml (e : YamlError).            (* "failed to parse yaml, %v" *)

(** [PrettyYaml] and [HashObject] return their string together with the
    lines they logged. *)
Definition PrettyYaml `{YamlLib} (run : MapOrder) (obj : GoValue) : string * list LogEntry :=
  let '(bs, err) := yaml_Marshal run obj in
  (bs, match err with Some e => [LogYaml e] | None => [] end).

Definition HashObject `{UnicodeLib, YamlLib} (run : MapOrder) (o : GoValue)
  : string * list LogEntry :=
  let '(data, _) := json_Marshal run o in
  let '(a, err) := json_Unmarshal data in
  let logged := match err with Some e => [LogUnmarshal e] | None => [] end in
  let '(text, logged') := PrettyYaml run a in
  (computeHash text, (logged ++ logged')%list).

(** ** Unique names *)

(** [strings.Join(elems, sep)] *)
Fixpoint Join (elems : list string) (sep : string) : string :=
  match elems with
  | [] => EmptyString
  | [e] => e
  | e :: rest => e ++ sep ++ Join rest sep
  end.

(** [fmt.Sprintf("%08x", v)] for a [uint32]: its eight hexadecimal digits,
    the most significant first. *)
Definition Sprintf08x (v : Z) : string :=
  string_of_list_ascii
    (map (λ k, hexDigit (Z.land (Z.shiftr v k) 15)) [28; 24; 20; 16; 12; 8; 4; 0]).

(** [FormatName]; [token] is the number [rand.Uint32()] returns to this
    call, in [0, 2^32). *)
Definition FormatName (token : Z) (name : string) : string :=
  Join [name; Sprintf08x token] "-".

(** ** The work queue *)

(** [reconcile.Request], by its [types.NamespacedName]. *)
Record Request := {
  reqNamespace : string;
  reqName : string
}.

Global Instance Request_eq_dec : EqDecision Request.
Proof. solve_decision. Defined.

Global Instance Request_countable : Countable Request :=
  inj_countable' (λ r, (reqNamespace r, reqName r))
                 (λ p, {| reqNamespace := p.1; reqName := p.2 |})
                 (λ r, match r with Build_Request _ _ => eq_refl end).

(** The state of a [workqueue.Type] of client-go, which every
    [RateLimitingInterface] embeds: the items waiting in order, the set of
    items that need processing, the set of items being processed. *)
Record WorkQueue := {
  queue : list Request;
  dirty : gset Request;
  processing : gset Request;
  shuttingDown : bool
}.

(** [q.Add(item)]: nothing when the queue shuts down or the item is dirty
    already; otherwise the item becomes dirty and, unless it is being
    processed, is appended to the queue. *)
Definition Add (item : Request) (q : WorkQueue) : WorkQueue :=
  if shuttingDown q then q
  else if bool_decide (item ∈ dirty q) then q
  else if bool_decide (item ∈ processing q)
       then {| queue := queue q; dirty := {[ item ]} ∪ dirty q;
               processing := processing q; shuttingDown := shuttingDown q |}
       else {| queue := queue q ++ [item]; dirty := {[ item ]} ∪ dirty q;
               processing := processing q; shuttingDown := shuttingDown q |}.

Definition GatewayProxyInternalService := "x-raven-proxy-internal-svc".
Definition RavenProxyNodesConfig := "edge-tunnel-nodes".

(** The helpers return the queue as the call leaves it. *)
Definition AddGatewayToWorkQueue (gwName : string) (q : WorkQueue) : WorkQueue :=
  if bool_decide (gwName ≠ "")
  then Add {| reqNamespace := ""; reqName := gwName |} q
  else q.

Definition AddNodePoolToWorkQueue (npName : string) (q : WorkQueue) : WorkQueue :=
  if bool_decide (npName ≠ "")
  then Add {| reqNamespace := ""; reqName := npName |} q
  else q.

Definition AddDNSConfigmapToWorkQueue (q : WorkQueue) : WorkQueue :=
  Add {| reqNamespace := WorkingNamespace; reqName := RavenProxyNodesConfig |} q.

Definition AddGatewayProxyInternalService (q : WorkQueue) : WorkQueue :=
  Add {| reqNamespace := WorkingNamespace; reqName := GatewayProxyInternalService |} q.

(** ** Errors *)

(** [errors.Unwrap]: the error a [%w] verb wrapped. *)
Definition Unwrap (e : error) : option error :=
  match e with
  | ErrMissingPublicIP _ cause _ => Some cause
  | _ => None
  end.

(** ** Notions the properties are stated with *)

(** An address entry "flagged internal that parses as a valid IP literal". *)
Definition internalIPEntry `{NetLib} (addr : NodeAddress) : Prop :=
  addrType addr = NodeInternalIP ∧ is_Some (ParseIP (Address addr)).

(** The two failures of the public-IP lookup. *)
Definition missingLabel (e : error) : Prop :=
  ∃ label node, e = ErrNoPublicIPLabel label node.
Definition invalidFormat (e : error) : Prop :=
  ∃ label ip node, e = ErrInvalidPublicIP label ip node.

(** The endpoint a successful [TryCreateActiveEndpointCandidate] builds. *)
Definition candidateEndpoint `{RavenAPI} (node : Node) (publicIP : string) : Endpoint :=
  {| NodeName := Name node;
     PublicIP := publicIP;
     UnderNAT := false;
     epType := Tunnel;
     Port := DefaultTunnelServerExposedPort;
     Config := {[ ConfigCreationTimestampKey := formatInt (CreationTimestamp node) ]} |}.

(** What [CheckServer] reads under one key of a fetched config map. *)
Definition flagMatches `{UnicodeLib} (cm : ConfigMap) (key : string) : bool :=
  match Data cm !! key with
  | Some val => bool_decide (ToLower val = "true")
  | None => false
  end.

(** "Parses as a base-10 integer", as a relation between the text and the
    number it denotes: an optional sign, then one or more decimal digits. *)
Fixpoint allDigits (s : string) : bool :=
  match s with
  | EmptyString => true
  | String d rest => isDigit d && allDigits rest
  end.

Fixpoint decimalValue (s : string) : Z :=
  match s with
  | EmptyString => 0
  | String d rest => digitOf d * 10 ^ Z.of_nat (String.length rest) + decimalValue rest
  end.

Inductive base10 : string → Z → Prop :=
| base10_plain (ds : string) :
    ds ≠ "" → allDigits ds = true → base10 ds (decimalValue ds)
| base10_plus (ds : string) :
    ds ≠ "" → allDigits ds = true → base10 (String "+" ds) (decimalValue ds)
| base10_minus (ds : string) :
    ds ≠ "" → allDigits ds = true → base10 (String "-" ds) (- decimalValue ds).

(** A byte. *)
Definition isByte (b : Z) : Prop := 0 ≤ b < 256.





(** The encoded values of a map, and its keys as [mapv] sorts them. *)
Definition yamlValues `{YamlLib} (run : MapOrder) (entries : list (string * GoValue))
  : list (string * (YNode + YamlError)) :=
  (λ e, (e.1, yamlEncode run e.2)) <$> entries.

Definition yamlKeys `{YamlLib} (run : MapOrder) (entries : list (string * GoValue))
  : list string :=
  sortBy keyLess ((iterate run _ (yamlValues run entries)).*1).

(** A decoded value has nothing [yaml] refuses. *)
Definition encodable `{YamlLib} (a : GoValue) : Prop :=
  ∀ run, ∃ doc, yamlEncode run a = inl doc.

(** The value [HashObject] re-encodes: the decoded JSON text of [o]. *)
Definition normalized `{UnicodeLib} (run : MapOrder) (o : GoValue) : GoValue :=
  (json_Unmarshal (json_Marshal run o).1).1.

(** The canonical text of a value: what [HashObject] passes to
    [computeHash]. *)
Definition canonicalForm `{UnicodeLib, YamlLib} (run : MapOrder) (o : GoValue) : string :=
  (PrettyYaml run (json_Unmarshal (json_Marshal run o).1).1).1.

(** A node with another address list. *)
Definition withAddresses (node : Node) (addrs : list NodeAddress) : Node :=
  {| Name := Name node; Labels := Labels node;
     CreationTimestamp := CreationTimestamp node; Addresses := addrs |}.

Global Instance internalIPEntry_dec `{NetLib} (addr : NodeAddress) :
  Decision (internalIPEntry addr).
Proof. unfold internalIPEntry. apply _. Defined.

(** ASCII text. *)
Definition isASCII (s : string) : bool := forallb (λ b, b <? 128) (bytesOf s).

(** "true" in any mix of upper and lower case. *)
Definition spellsTrue (val : string) : Prop :=
  ∃ c1 c2 c3 c4,
    val = String c1 (String c2 (String c3 (String c4 EmptyString)))
    ∧ (c1 = "t"%char ∨ c1 = "T"%char) ∧ (c2 = "r"%char ∨ c2 = "R"%char)
    ∧ (c3 = "u"%char ∨ c3 = "U"%char) ∧ (c4 = "e"%char ∨ c4 = "E"%char).

(** A [uint32]. *)
Definition isUint32 (v : Z) : Prop := 0 ≤ v < 4294967296.

(** What a work queue keeps true: no item waits twice, and the waiting
    items are the dirty items that are not being processed. *)
Definition queueInv (q : WorkQueue) : Prop :=
  NoDup (queue q)
  ∧ (∀ item, item ∈ queue q ↔ item ∈ dirty q ∧ item ∉ processing q).

Definition emptyQueue : WorkQueue :=
  {| queue := []; dirty := ∅; processing := ∅; shuttingDown := false |}.

(** The requests the helpers build. *)
Definition namedRequest (name : string) : Request :=
  {| reqNamespace := ""; reqName := name |}.
Definition dnsRequest : Request :=
  {| reqNamespace := WorkingNamespace; reqName := RavenProxyNodesConfig |}.
Definition proxyServiceRequest : Request :=
  {| reqNamespace := WorkingNamespace; reqName := GatewayProxyInternalService |}.





(** * Properties *)

(** ** Bytes *)

Lemma byteOfZ_byteZ (c : ascii) : byteOfZ (byteZ c) = c.
Proof. unfold byteOfZ, byteZ. rewrite N2Z.id. apply ascii_N_embedding. Qed.

Lemma byteZ_range (c : ascii) : 0 ≤ byteZ c < 256.
Proof.
  unfold byteZ. pose proof (N_ascii_bounded c) as Hb. lia.
Qed.

Lemma byteZ_byteOfZ (z : Z) : 0 ≤ z < 256 → byteZ (byteOfZ z) = z.
Proof.
  intros Hz. unfold byteZ, byteOfZ. rewrite N_ascii_embedding by lia. lia.
Qed.

Lemma byteZ_inj (x y : ascii) : byteZ x = byteZ y → x = y.
Proof. intros Heq. rewrite <- (byteOfZ_byteZ x), <- (byteOfZ_byteZ y), Heq. reflexivity. Qed.

(** ** Node addresses and labels *)

Lemma isInternalIP_true `{NetLib} (addr : NodeAddress) :
  isInternalIP addr = true ↔ internalIPEntry addr.
Proof.
  unfold isInternalIP, internalIPEntry.
  rewrite andb_true_iff, !bool_decide_eq_true. reflexivity.
Qed.

Lemma isInternalIP_false `{NetLib} (addr : NodeAddress) :
  isInternalIP addr = false ↔ ¬ internalIPEntry addr.
Proof.
  rewrite <- isInternalIP_true. destruct (isInternalIP addr); split; congruence.
Qed.

(** The loop returns at the first qualifying entry and otherwise hands back
    the value [ip] had before it. *)
Lemma internalIPLoop_split `{NetLib} (ip : string) (addrs : list NodeAddress) :
  (∃ before addr after,
      addrs = (before ++ addr :: after)%list ∧
      Forall (λ a, ¬ internalIPEntry a) before ∧
      internalIPEntry addr ∧
      internalIPLoop ip addrs = Address addr)
  ∨ (Forall (λ a, ¬ internalIPEntry a) addrs ∧ internalIPLoop ip addrs = ip).
Proof.
  induction addrs as [|a rest IH]; simpl.
  - right. split; [constructor | reflexivity].
  - destruct (isInternalIP a) eqn:Ha.
    + left. exists [], a, rest. simpl.
      repeat split; try constructor; apply isInternalIP_true; assumption.
    + apply isInternalIP_false in Ha.
      destruct IH as [(before & addr & after & -> & Hb & Hq & Hr) | [Hall Hr]].
      * left. exists (a :: before), addr, after. simpl.
        split; [reflexivity|]. split; [constructor; assumption|]. split; assumption.
      * right. split; [constructor; assumption | assumption].
Qed.

(** C5: [GetNodeInternalIP] returns the address of the first entry of the
    node's address list that has the internal-IP type and an address that
    parses as an IP literal, and the empty string when there is none. *)
Theorem GetNodeInternalIP_first_internal `{NetLib} (node : Node) :
  (∃ before addr after,
      Addresses node = (before ++ addr :: after)%list ∧
      Forall (λ a, ¬ internalIPEntry a) before ∧
      internalIPEntry addr ∧
      GetNodeInternalIP node = Address addr)
  ∨ (Forall (λ a, ¬ internalIPEntry a) (Addresses node) ∧
     GetNodeInternalIP node = "").
Proof.
  unfold GetNodeInternalIP.
  destruct (internalIPLoop_split "" (Addresses node)) as [Hfound | Hnone].
  - left. exact Hfound.
  - right. exact Hnone.
Qed.

(** A label that parses is returned as it is. *)
Lemma GetEdgeNodePublicIP_valid `{NetLib, RavenAPI} (node : Node) (v : string) :
  Labels node !! LabelNodeProviderPublicIP = Some v → is_Some (ParseIP v) →
  GetEdgeNodePublicIP node = (v, None).
Proof.
  intros Hl [parsed Hp]. unfold GetEdgeNodePublicIP. rewrite Hl, Hp. reflexivity.
Qed.

(** C6: [GetEdgeNodePublicIP] fails, with an empty string, exactly when the
    public-IP label is absent (missing label) or present with a value that
    is not an IP literal (invalid format); otherwise it returns the value of
    the label and no error. *)
Theorem GetEdgeNodePublicIP_cases `{NetLib, RavenAPI} (node : Node) :
  let r := GetEdgeNodePublicIP node in
  let label := Labels node !! LabelNodeProviderPublicIP in
  (is_Some (r.2) ↔ label = None ∨ ∃ v, label = Some v ∧ ParseIP v = None)
  ∧ (is_Some (r.2) → r.1 = "")
  ∧ (label = None → ∃ e, r.2 = Some e ∧ missingLabel e)
  ∧ (∀ v, label = Some v → ParseIP v = None → ∃ e, r.2 = Some e ∧ invalidFormat e)
  ∧ (∀ v, label = Some v → is_Some (ParseIP v) → r = (v, None)).
Proof.
  unfold GetEdgeNodePublicIP.
  destruct (Labels node !! LabelNodeProviderPublicIP) as [ip|] eqn:Hl; simpl.
  - destruct (ParseIP ip) as [parsed|] eqn:Hp; simpl.
    + split.
      { split; [intros [e He]; discriminate|].
        intros [Hn | (v & Hv & Hnone)]; [discriminate|].
        injection Hv as <-. congruence. }
      split; [intros [e He]; discriminate|].
      split; [discriminate|].
      split.
      { intros v Hv Hnone. injection Hv as <-. congruence. }
      intros v Hv _. injection Hv as <-. reflexivity.
    + split.
      { split; [|intros _; eexists; reflexivity].
        intros _. right. exists ip. split; [reflexivity | assumption]. }
      split; [reflexivity|].
      split; [discriminate|].
      split.
      { intros v Hv _. injection Hv as <-.
        eexists. split; [reflexivity|]. do 3 eexists. reflexivity. }
      intros v Hv [x Hx]. injection Hv as <-. congruence.
  - split.
    { split; [intros _; left; reflexivity | intros _; eexists; reflexivity]. }
    split; [reflexivity|].
    split.
    { intros _. eexists. split; [reflexivity|]. do 2 eexists. reflexivity. }
    split; intros v Hv; discriminate.
Qed.

(** C10: [TryCreateActiveEndpointCandidate] fails exactly when the candidate
    label key is absent or the public-IP lookup fails.  The value under the
    candidate key plays no part: whatever it is, a node with a valid
    public-IP label gets the endpoint with its name, that IP, no NAT, the
    tunnel type, the default exposed port and a config holding the creation
    timestamp, also when [IsNodeEndpointCandidate] rejects the node. *)
Theorem TryCreateActiveEndpointCandidate_contract `{NetLib, RavenAPI} (node : Node) :
  let r := TryCreateActiveEndpointCandidate node in
  let candidate := Labels node !! LabelEndpointCandidate in
  (is_Some (r.2) ↔ candidate = None ∨ is_Some ((GetEdgeNodePublicIP node).2))
  ∧ (is_Some (r.2) → r.1 = None)
  ∧ (∀ value ip, candidate = Some value →
       Labels node !! LabelNodeProviderPublicIP = Some ip → is_Some (ParseIP ip) →
       r = (Some (candidateEndpoint node ip), None)
       ∧ Config (candidateEndpoint node ip) !! ConfigCreationTimestampKey
         = Some (formatInt (CreationTimestamp node))
       ∧ IsNodeEndpointCandidate node = bool_decide (value = "true")).
Proof.
  unfold TryCreateActiveEndpointCandidate, IsNodeEndpointCandidate.
  destruct (Labels node !! LabelEndpointCandidate) as [value|] eqn:Hc; simpl.
  - pose proof (GetEdgeNodePublicIP_valid node) as Hok.
    destruct (GetEdgeNodePublicIP node) as [publicIP [err|]] eqn:Hg; simpl in *.
    + split.
      { split; [intros _; right; eexists; reflexivity | intros _; eexists; reflexivity]. }
      split; [reflexivity|].
      intros value' ip _ Hip Hparse.
      specialize (Hok ip Hip Hparse). discriminate.
    + split.
      { split; [intros [e He]; discriminate|].
        intros [Hn | [e He]]; discriminate. }
      split; [intros [e He]; discriminate|].
      intros value' ip Hv Hip Hparse.
      injection Hv as <-.
      specialize (Hok ip Hip Hparse). injection Hok as ->.
      split; [reflexivity|].
      split; [apply lookup_singleton_eq | reflexivity].
  - split.
    { split; [intros _; left; reflexivity | intros _; eexists; reflexivity]. }
    split; [reflexivity|].
    intros value ip Hv. discriminate.
Qed.

(** ** Feature flags *)

Lemma CheckServer_unavailable `{UnicodeLib} (client : Client) :
  Get client WorkingNamespace RavenGlobalConfig = None →
  CheckServer client = (DefaultEnableL7Proxy, DefaultEnableL3Tunnel).
Proof. intros Hget. unfold CheckServer. rewrite Hget. reflexivity. Qed.

(** Each flag is its default, raised to [true] by a matching value. *)
Lemma CheckServer_fetched `{UnicodeLib} (client : Client) (cm : ConfigMap) :
  Get client WorkingNamespace RavenGlobalConfig = Some cm →
  CheckServer client =
    (DefaultEnableL7Proxy || flagMatches cm RavenEnableProxy,
     DefaultEnableL3Tunnel || flagMatches cm RavenEnableTunnel).
Proof.
  intros Hget. unfold CheckServer, flagMatches. rewrite Hget.
  destruct (Data cm !! RavenEnableProxy) as [p|];
    destruct (Data cm !! RavenEnableTunnel) as [t|]; simpl;
    repeat case_bool_decide; reflexivity.
Qed.

(** C9: whatever the configuration holds (no resource, no key, or any value
    under the key, "false" included), [CheckServer] returns
    [enableTunnel = true]. *)
Theorem CheckServer_tunnel_always_enabled `{UnicodeLib} (client : Client) :
  (CheckServer client).2 = true
  ∧ ∀ cm, Get client WorkingNamespace RavenGlobalConfig = Some cm →
      ∀ val, Data cm !! RavenEnableTunnel = Some val → (CheckServer client).2 = true.
Proof.
  assert (Hall : (CheckServer client).2 = true).
  { destruct (Get client WorkingNamespace RavenGlobalConfig) as [cm|] eqn:Hget.
    - rewrite (CheckServer_fetched client cm Hget). reflexivity.
    - rewrite (CheckServer_unavailable client Hget). reflexivity. }
  split; [exact Hall|]. intros cm _ val _. exact Hall.
Qed.


(** *** What the comparison accepts *)

Lemma lowerByte_letter (c x : ascii) :
  97 ≤ byteZ x ≤ 122 →
  (lowerByte c = x ↔ c = x ∨ byteZ c = byteZ x - 32).
Proof.
  intros Hx. unfold lowerByte, isUpper.
  pose proof (byteZ_range c) as Hcb.
  destruct ((65 <=? byteZ c) && (byteZ c <=? 90)) eqn:Hup.
  - apply andb_true_iff in Hup as [Hlo Hhi]. apply Z.leb_le in Hlo, Hhi. split.
    + intros <-. right. rewrite byteZ_byteOfZ by lia. lia.
    + intros [-> | Heq]; [lia|].
      rewrite <- (byteOfZ_byteZ x). f_equal. lia.
  - apply andb_false_iff in Hup. rewrite !Z.leb_gt in Hup. split.
    + intros ->. left. reflexivity.
    + intros [-> | Heq]; [reflexivity | lia].
Qed.

Lemma mapBytes_no_upper (s : string) :
  existsb (λ b, (65 <=? b) && (b <=? 90)) (bytesOf s) = false →
  mapBytes lowerByte s = s.
Proof.
  induction s as [|c rest IH]; simpl; [reflexivity|].
  rewrite orb_false_iff. intros [Hc Hrest].
  rewrite IH by assumption. unfold lowerByte, isUpper. rewrite Hc. reflexivity.
Qed.

(** On ASCII text [strings.ToLower] lowers every byte. *)
Lemma ToLower_ascii `{UnicodeLib} (s : string) :
  forallb (λ b, b <? 128) (bytesOf s) = true → ToLower s = mapBytes lowerByte s.
Proof.
  intros Hascii. unfold ToLower. rewrite Hascii.
  destruct (existsb _ (bytesOf s)) eqn:Hup; simpl; [reflexivity|].
  symmetry. apply mapBytes_no_upper. exact Hup.
Qed.

(** An ASCII value matches exactly when it spells "true" in any mix of
    upper and lower case. *)
Lemma ToLower_true_ascii `{UnicodeLib} (val : string) :
  forallb (λ b, b <? 128) (bytesOf val) = true →
  (ToLower val = "true" ↔
   ∃ c1 c2 c3 c4,
     val = String c1 (String c2 (String c3 (String c4 EmptyString)))
     ∧ (c1 = "t"%char ∨ c1 = "T"%char) ∧ (c2 = "r"%char ∨ c2 = "R"%char)
     ∧ (c3 = "u"%char ∨ c3 = "U"%char) ∧ (c4 = "e"%char ∨ c4 = "E"%char)).
Proof.
  intros Hascii. rewrite (ToLower_ascii val Hascii).
  assert (Hletter : ∀ c x X : ascii,
    97 ≤ byteZ x ≤ 122 → byteZ X = byteZ x - 32 →
    (lowerByte c = x ↔ c = x ∨ c = X)).
  { intros c x X Hx HX. rewrite (lowerByte_letter c x Hx). split.
    - intros [-> | Heq]; [by left | right].
      rewrite <- (byteOfZ_byteZ c), <- (byteOfZ_byteZ X). f_equal. lia.
    - intros [-> | ->]; [by left | by right]. }
  split.
  - destruct val as [|c1 [|c2 [|c3 [|c4 [|c5 rest]]]]]; simpl; try discriminate.
    intros [= H1 H2 H3 H4]. exists c1, c2, c3, c4. split; [reflexivity|].
    repeat split.
    + apply (Hletter c1 "t"%char "T"%char); [vm_compute; split; discriminate | reflexivity | assumption].
    + apply (Hletter c2 "r"%char "R"%char); [vm_compute; split; discriminate | reflexivity | assumption].
    + apply (Hletter c3 "u"%char "U"%char); [vm_compute; split; discriminate | reflexivity | assumption].
    + apply (Hletter c4 "e"%char "E"%char); [vm_compute; split; discriminate | reflexivity | assumption].
  - intros (c1 & c2 & c3 & c4 & -> & H1 & H2 & H3 & H4).
    destruct H1 as [-> | ->], H2 as [-> | ->], H3 as [-> | ->], H4 as [-> | ->];
      reflexivity.
Qed.

(** ** Port validation *)

Lemma isDigit_range (c : ascii) : isDigit c = true → 0 ≤ digitOf c ≤ 9.
Proof.
  unfold isDigit, digitOf. rewrite andb_true_iff, !Z.leb_le. lia.
Qed.

Lemma isDigit_not_sign (c : ascii) : isDigit c = true → isSign c = false ∧ (byteZ c =? 45) = false.
Proof.
  unfold isDigit, isSign. rewrite andb_true_iff, !Z.leb_le. intros [Hlo Hhi].
  rewrite orb_false_iff, !Z.eqb_neq. lia.
Qed.

Lemma pow10_pos (n : nat) : 1 ≤ 10 ^ Z.of_nat n.
Proof.
  induction n as [|n IH]; [reflexivity|].
  rewrite Nat2Z.inj_succ, Z.pow_succ_r by lia. lia.
Qed.

Lemma decimalValue_bounds (s : string) :
  allDigits s = true → 0 ≤ decimalValue s < 10 ^ Z.of_nat (String.length s).
Proof.
  induction s as [|d rest IH]; simpl String.length; simpl decimalValue; simpl allDigits.
  - intros _. simpl. lia.
  - rewrite andb_true_iff. intros [Hd Hrest].
    apply isDigit_range in Hd. specialize (IH Hrest).
    rewrite Nat2Z.inj_succ, Z.pow_succ_r by lia.
    pose proof (pow10_pos (String.length rest)). nia.
Qed.

(** The accumulating loops compute the positional value. *)
Lemma atoiLoop_Some (s : string) : ∀ n m,
  atoiLoop n s = Some m ↔
  allDigits s = true ∧ m = n * 10 ^ Z.of_nat (String.length s) + decimalValue s.
Proof.
  induction s as [|d rest IH]; intros n m; simpl atoiLoop; simpl allDigits;
    simpl String.length; simpl decimalValue.
  - rewrite Z.pow_0_r. split.
    + intros [= <-]. split; [reflexivity | lia].
    + intros [_ ->]. f_equal. lia.
  - destruct (isDigit d) eqn:Hd; simpl.
    + rewrite IH. rewrite Nat2Z.inj_succ, Z.pow_succ_r by lia.
      split; intros [Ha ->]; (split; [assumption | ring]).
    + split; [discriminate | intros [? _]; discriminate].
Qed.

Lemma parseUintLoop_ok (s : string) : ∀ n m,
  0 ≤ n ≤ maxUint64 →
  (parseUintLoop n s = (m, None) ↔
   allDigits s = true ∧ m = n * 10 ^ Z.of_nat (String.length s) + decimalValue s
   ∧ m ≤ maxUint64).
Proof.
  induction s as [|d rest IH]; intros n m Hn; simpl parseUintLoop; simpl allDigits;
    simpl String.length; simpl decimalValue.
  - rewrite Z.pow_0_r. split.
    + intros [= <-]. split; [reflexivity | lia].
    + intros (_ & -> & _). f_equal. lia.
  - destruct (isDigit d) eqn:Hd; simpl.
    2:{ split; [discriminate | intros [? _]; discriminate]. }
    pose proof (isDigit_range d Hd) as Hdr.
    rewrite Nat2Z.inj_succ, Z.pow_succ_r by lia.
    pose proof (pow10_pos (String.length rest)) as Hp.
    destruct (n >=? uintCutoff) eqn:Hcut.
    { apply Z.geb_le in Hcut. split; [discriminate|].
      intros (Ha & -> & Hle). apply decimalValue_bounds in Ha.
      unfold uintCutoff, maxUint64 in *. nia. }
    rewrite Z.geb_leb in Hcut. apply Z.leb_gt in Hcut.
    destruct (n * 10 + digitOf d >? maxUint64) eqn:Hover.
    { rewrite Z.gtb_ltb in Hover. apply Z.ltb_lt in Hover. split; [discriminate|].
      intros (Ha & -> & Hle). apply decimalValue_bounds in Ha.
      unfold uintCutoff, maxUint64 in *. nia. }
    rewrite Z.gtb_ltb in Hover. apply Z.ltb_ge in Hover.
    rewrite IH by lia.
    split; intros (Ha & Hm & Hle); (split; [assumption|]);
      (split; [rewrite Hm; ring | assumption]).
Qed.

Lemma parseUintLoop_range (s : string) : ∀ n m,
  parseUintLoop n s = (m, Some ErrRange) → m = maxUint64.
Proof.
  induction s as [|d rest IH]; intros n m; simpl; [discriminate|].
  destruct (isDigit d); simpl; [|discriminate].
  destruct (n >=? uintCutoff); [intros [= <-]; reflexivity|].
  destruct (n * 10 + digitOf d >? maxUint64); [intros [= <-]; reflexivity|].
  apply IH.
Qed.

Lemma ParseUint_ok (s : string) (m : Z) :
  ParseUint s = (m, None) ↔
  s ≠ "" ∧ allDigits s = true ∧ m = decimalValue s ∧ m ≤ maxUint64.
Proof.
  destruct s as [|c rest].
  - simpl. split; [discriminate | intros [Hne _]; congruence].
  - change (ParseUint (String c rest)) with (parseUintLoop 0 (String c rest)).
    rewrite parseUintLoop_ok by (unfold maxUint64; lia).
    rewrite Z.mul_0_l, Z.add_0_l. split.
    + intros (Ha & -> & Hle). repeat split; [discriminate | assumption | assumption].
    + intros (_ & Ha & -> & Hle). repeat split; assumption.
Qed.

Lemma ParseUint_range (s : string) (m : Z) :
  ParseUint s = (m, Some ErrRange) → m = maxUint64.
Proof.
  destruct s as [|c rest]; [discriminate|]. apply parseUintLoop_range.
Qed.

(** [ParseInt] succeeds exactly on the base-10 texts whose value fits
    [int64]. *)
Lemma ParseInt_ok (s : string) (v : Z) :
  ParseInt s = (v, None) ↔ base10 s v ∧ - intCutoff ≤ v < intCutoff.
Proof.
  split.
  - destruct s as [|c rest]; [discriminate|]. unfold ParseInt.
    destruct (ParseUint (if isSign c then rest else String c rest))
      as [un [[]|]] eqn:Hun; [discriminate| |].
    { apply ParseUint_range in Hun. subst un.
      destruct (byteZ c =? 45); simpl; discriminate. }
    apply ParseUint_ok in Hun as (Hne & Ha & -> & Hmax).
    pose proof (decimalValue_bounds _ Ha) as Hb.
    destruct (isSign c) eqn:Hsign.
    + destruct (byteZ c =? 45) eqn:Hneg; simpl.
      * destruct (decimalValue rest >? intCutoff) eqn:Hc; [discriminate|].
        rewrite Z.gtb_ltb in Hc. apply Z.ltb_ge in Hc.
        intros [= <-]. split; [|unfold intCutoff in *; lia].
        assert (c = "-"%char) as ->.
        { apply Z.eqb_eq in Hneg. rewrite <- (byteOfZ_byteZ c), Hneg. reflexivity. }
        constructor; assumption.
      * destruct (decimalValue rest >=? intCutoff) eqn:Hc; [discriminate|].
        rewrite Z.geb_leb in Hc. apply Z.leb_gt in Hc.
        intros [= <-]. split; [|unfold intCutoff in *; lia].
        assert (c = "+"%char) as ->.
        { unfold isSign in Hsign. rewrite Hneg, orb_false_r in Hsign.
          apply Z.eqb_eq in Hsign. rewrite <- (byteOfZ_byteZ c), Hsign. reflexivity. }
        constructor; assumption.
    + assert (Hneg : (byteZ c =? 45) = false).
      { unfold isSign in Hsign. apply orb_false_iff in Hsign. tauto. }
      rewrite Hneg. cbn [negb andb].
      destruct (decimalValue (String c rest) >=? intCutoff) eqn:Hc; [discriminate|].
      rewrite Z.geb_leb in Hc. apply Z.leb_gt in Hc.
      intros Heq. assert (v = decimalValue (String c rest)) as -> by congruence.
      split; [|unfold intCutoff in *; lia].
      constructor; assumption.
  - intros [Hb Hr]. unfold intCutoff in Hr.
    destruct Hb as [ds Hne Ha | ds Hne Ha | ds Hne Ha].
    + destruct ds as [|c rest]; [congruence|].
      pose proof Ha as Ha'. simpl in Ha'. apply andb_true_iff in Ha' as [Hd _].
      apply isDigit_not_sign in Hd as [Hs Hn].
      unfold ParseInt. rewrite Hs, Hn.
      assert (Hun : ParseUint (String c rest) = (decimalValue (String c rest), None)).
      { apply ParseUint_ok. unfold maxUint64. repeat split; [discriminate|assumption|lia]. }
      rewrite Hun. cbn [negb andb].
      replace (decimalValue (String c rest) >=? intCutoff) with false; [reflexivity|].
      symmetry. rewrite Z.geb_leb. apply Z.leb_gt. unfold intCutoff. lia.
    + unfold ParseInt. change (isSign "+") with true. change (byteZ "+" =? 45) with false.
      cbn [negb andb].
      assert (Hun : ParseUint ds = (decimalValue ds, None)).
      { apply ParseUint_ok. unfold maxUint64. repeat split; [assumption|assumption|lia]. }
      rewrite Hun. cbn [negb andb].
      replace (decimalValue ds >=? intCutoff) with false; [reflexivity|].
      symmetry. rewrite Z.geb_leb. apply Z.leb_gt. unfold intCutoff. lia.
    + unfold ParseInt. change (isSign "-") with true. change (byteZ "-" =? 45) with true.
      cbn [negb andb].
      pose proof (decimalValue_bounds _ Ha) as Hb.
      assert (Hun : ParseUint ds = (decimalValue ds, None)).
      { apply ParseUint_ok. unfold maxUint64. repeat split; [assumption|assumption|lia]. }
      rewrite Hun. cbn [negb andb].
      replace (decimalValue ds >? intCutoff) with false; [reflexivity|].
      symmetry. rewrite Z.gtb_ltb. apply Z.ltb_ge. unfold intCutoff. lia.
Qed.

Lemma isSign_cases (c : ascii) :
  isSign c = true → (c = "+"%char ∧ (byteZ c =? 45) = false) ∨ (c = "-"%char ∧ (byteZ c =? 45) = true).
Proof.
  unfold isSign. rewrite orb_true_iff, !Z.eqb_eq. intros [Hc | Hc].
  - left. assert (c = "+"%char) as -> by (rewrite <- (byteOfZ_byteZ c), Hc; reflexivity).
    split; reflexivity.
  - right. assert (c = "-"%char) as -> by (rewrite <- (byteOfZ_byteZ c), Hc; reflexivity).
    split; reflexivity.
Qed.

Lemma fast_path_fits (s : string) :
  allDigits s = true → (Z.of_nat (String.length s) < 19) →
  0 ≤ decimalValue s < intCutoff.
Proof.
  intros Ha Hlen. pose proof (decimalValue_bounds s Ha) as Hb.
  assert (10 ^ Z.of_nat (String.length s) ≤ 10 ^ 18) as Hp
    by (apply Z.pow_le_mono_r; lia).
  change (10 ^ 18) with 1000000000000000000 in Hp. unfold intCutoff. lia.
Qed.

Lemma atoiFast_ok (s : string) (v : Z) :
  Z.of_nat (String.length s) < 19 →
  (atoiFast s = (v, None) ↔ base10 s v ∧ - intCutoff ≤ v < intCutoff).
Proof.
  intros Hlen. split.
  - destruct s as [|c rest]; [discriminate|]. unfold atoiFast.
    destruct (isSign c) eqn:Hsign.
    + destruct rest as [|d rest']; [discriminate|].
      destruct (atoiLoop 0 (String d rest')) as [n|] eqn:Hloop; [|discriminate].
      apply atoiLoop_Some in Hloop as [Ha Hn]. rewrite Z.mul_0_l, Z.add_0_l in Hn.
      assert (Hfit : 0 ≤ decimalValue (String d rest') < intCutoff).
      { apply fast_path_fits; [assumption|].
        change (String.length (String c (String d rest')))
          with (S (String.length (String d rest'))) in Hlen. lia. }
      apply isSign_cases in Hsign as [[-> Hneg] | [-> Hneg]]; rewrite Hneg;
        intros Heq.
      * assert (v = n) as -> by congruence. subst n.
        split; [constructor; [discriminate | assumption] | lia].
      * assert (v = - n) as -> by congruence. subst n.
        split; [constructor; [discriminate | assumption] | lia].
    + destruct (atoiLoop 0 (String c rest)) as [n|] eqn:Hloop; [|discriminate].
      apply atoiLoop_Some in Hloop as [Ha Hn]. rewrite Z.mul_0_l, Z.add_0_l in Hn.
      assert (Hneg : (byteZ c =? 45) = false).
      { unfold isSign in Hsign. apply orb_false_iff in Hsign. tauto. }
      rewrite Hneg. intros Heq. assert (v = n) as -> by congruence. subst n.
      pose proof (fast_path_fits _ Ha Hlen).
      split; [constructor; [discriminate | assumption] | lia].
  - intros [Hb _].
    destruct Hb as [ds Hne Ha | ds Hne Ha | ds Hne Ha].
    + destruct ds as [|c rest]; [congruence|].
      pose proof Ha as Ha'. simpl in Ha'. apply andb_true_iff in Ha' as [Hd _].
      apply isDigit_not_sign in Hd as [Hs Hn].
      unfold atoiFast. rewrite Hs, Hn.
      assert (Hloop : atoiLoop 0 (String c rest) = Some (decimalValue (String c rest))).
      { apply atoiLoop_Some. split; [assumption | lia]. }
      rewrite Hloop. reflexivity.
    + destruct ds as [|d rest]; [congruence|].
      unfold atoiFast. change (isSign "+") with true. change (byteZ "+" =? 45) with false.
      cbn [negb andb].
      assert (Hloop : atoiLoop 0 (String d rest) = Some (decimalValue (String d rest))).
      { apply atoiLoop_Some. split; [assumption | lia]. }
      rewrite Hloop. reflexivity.
    + destruct ds as [|d rest]; [congruence|].
      unfold atoiFast. change (isSign "-") with true. change (byteZ "-" =? 45) with true.
      cbn [negb andb].
      assert (Hloop : atoiLoop 0 (String d rest) = Some (decimalValue (String d rest))).
      { apply atoiLoop_Some. split; [assumption | lia]. }
      rewrite Hloop. reflexivity.
Qed.

Lemma Atoi_unfold (s : string) :
  Atoi s =
    if (0 <? Z.of_nat (String.length s)) && (Z.of_nat (String.length s) <? 19)
    then atoiFast s else ParseInt s.
Proof. reflexivity. Qed.

(** Both paths of [Atoi] agree on what succeeds: the base-10 texts whose
    value fits [int]. *)
Lemma Atoi_ok (s : string) (v : Z) :
  Atoi s = (v, None) ↔ base10 s v ∧ - intCutoff ≤ v < intCutoff.
Proof.
  rewrite Atoi_unfold.
  destruct ((0 <? Z.of_nat (String.length s)) && (Z.of_nat (String.length s) <? 19))
    eqn:Hfast.
  - apply andb_true_iff in Hfast as [_ Hlt]. apply Z.ltb_lt in Hlt.
    apply atoiFast_ok. exact Hlt.
  - apply ParseInt_ok.
Qed.

Lemma base10_nonempty (s : string) (v : Z) : base10 s v → s ≠ "".
Proof. intros [ds Hne _ | ds _ _ | ds _ _]; [assumption | discriminate | discriminate]. Qed.

(** C7: [IsValidPort s] holds exactly when [s] parses as a base-10 integer
    whose value lies in [0, 65535]. *)
Theorem IsValidPort_iff (s : string) :
  IsValidPort s = true ↔ ∃ n, base10 s n ∧ 0 ≤ n ≤ 65535.
Proof.
  unfold IsValidPort. split.
  - case_bool_decide as Hempty; [discriminate|].
    destruct (Atoi s) as [port [err|]] eqn:Hatoi; [discriminate|].
    destruct ((port <? 0) || (port >? 65535)) eqn:Hrange; [discriminate|].
    intros _. apply orb_false_iff in Hrange as [Hlo Hhi].
    apply Z.ltb_ge in Hlo. rewrite Z.gtb_ltb in Hhi. apply Z.ltb_ge in Hhi.
    apply Atoi_ok in Hatoi as [Hb _].
    exists port. split; [assumption | lia].
  - intros (n & Hb & Hn).
    pose proof (base10_nonempty s n Hb) as Hne.
    rewrite bool_decide_eq_false_2 by assumption.
    assert (Hatoi : Atoi s = (n, None)).
    { apply Atoi_ok. split; [assumption | unfold intCutoff; lia]. }
    rewrite Hatoi.
    replace ((n <? 0) || (n >? 65535)) with false; [reflexivity|].
    symmetry. apply orb_false_iff. rewrite Z.gtb_ltb, !Z.ltb_ge. lia.
Qed.

(** ** The digest format *)

Lemma land_255_byte (x : Z) : isByte (Z.land x 255).
Proof.
  unfold isByte. change 255 with (Z.ones 8).
  rewrite Z.land_ones by lia. apply Z.mod_pos_bound. reflexivity.
Qed.

Lemma be32_bytes (x : Z) : Forall isByte (sha256.be32 x).
Proof. unfold sha256.be32. simpl. repeat constructor; apply land_255_byte. Qed.

Lemma checkSum_length (data : list Z) : length (sha256.checkSum data) = 32%nat.
Proof. reflexivity. Qed.

Lemma checkSum_bytes (data : list Z) : Forall isByte (sha256.checkSum data).
Proof.
  unfold sha256.checkSum. cbv zeta.
  generalize (sha256.blocks
    (length (data ++ sha256.padding (Z.of_nat (length data))) / 64)
    sha256.init224 (data ++ sha256.padding (Z.of_nat (length data)))).
  intros s. cbn [flat_map]. rewrite app_nil_r.
  repeat (apply Forall_app; split); apply be32_bytes.
Qed.

(** [Sum224] returns a [[28]byte]. *)
Lemma Sum224_length (data : list Z) : length (sha256.Sum224 data) = 28%nat.
Proof.
  unfold sha256.Sum224. rewrite length_take, checkSum_length. reflexivity.
Qed.

Lemma Sum224_bytes (data : list Z) : Forall isByte (sha256.Sum224 data).
Proof. unfold sha256.Sum224. apply Forall_take, checkSum_bytes. Qed.

Lemma hexDigit_lower (n : Z) : 0 ≤ n < 16 → isLowerHex (hexDigit n) = true.
Proof.
  intros Hn.
  assert (Hnat : ∀ k : nat, (k < 16)%nat → isLowerHex (hexDigit (Z.of_nat k)) = true).
  { intros k Hk. do 16 (destruct k as [|k]; [reflexivity|]). lia. }
  rewrite <- (Z2Nat.id n) by lia. apply Hnat. lia.
Qed.

Lemma EncodeToString_length (src : list Z) :
  String.length (EncodeToString src) = (2 * length src)%nat.
Proof.
  induction src as [|v rest IH]; simpl; [reflexivity|]. rewrite IH. lia.
Qed.

Lemma EncodeToString_lower (src : list Z) :
  Forall isByte src → allLowerHex (EncodeToString src) = true.
Proof.
  induction 1 as [|v rest Hv _ IH]; simpl; [reflexivity|].
  unfold isByte in Hv. rewrite IH, !andb_true_r. apply andb_true_iff. split.
  - apply hexDigit_lower. rewrite Z.shiftr_div_pow2 by lia.
    change (2 ^ 4) with 16. split; [apply Z.div_pos; lia|].
    apply Z.div_lt_upper_bound; lia.
  - apply hexDigit_lower. change 15 with (Z.ones 4).
    rewrite Z.land_ones by lia. apply Z.mod_pos_bound. reflexivity.
Qed.

(** Lower-casing changes nothing in a string of lowercase hex digits: it is
    ASCII and has no upper-case letter. *)
Lemma ToLower_lower_hex `{UnicodeLib} (s : string) :
  allLowerHex s = true → ToLower s = s.
Proof.
  intros Hs. unfold ToLower.
  assert (Hascii : forallb (λ b, b <? 128) (bytesOf s) = true
                   ∧ existsb (λ b, (65 <=? b) && (b <=? 90)) (bytesOf s) = false).
  { induction s as [|c rest IH]; simpl; [split; reflexivity|].
    simpl in Hs. apply andb_true_iff in Hs as [Hc Hrest].
    destruct (IH Hrest) as [-> ->]. unfold isLowerHex in Hc.
    rewrite andb_true_r, orb_false_r. split.
    - apply Z.ltb_lt. lia.
    - apply andb_false_iff. rewrite Z.leb_gt, Z.leb_gt. lia. }
  destruct Hascii as [-> ->]. reflexivity.
Qed.

Lemma computeHash_shape `{UnicodeLib} (target : string) :
  String.length (computeHash target) = 56%nat ∧ allLowerHex (computeHash target) = true.
Proof.
  unfold computeHash. cbv zeta.
  pose proof (EncodeToString_lower _ (Sum224_bytes (bytesOf target))) as Hhex.
  rewrite (ToLower_lower_hex _ Hhex). split; [|exact Hhex].
  rewrite EncodeToString_length, Sum224_length. reflexivity.
Qed.

(** The digest is the hex encoding itself. *)
Lemma computeHash_hex `{UnicodeLib} (target : string) :
  computeHash target = EncodeToString (sha256.Sum224 (bytesOf target)).
Proof.
  unfold computeHash. cbv zeta. apply ToLower_lower_hex.
  apply EncodeToString_lower, Sum224_bytes.
Qed.

(** ** Sorting *)

Section sorting.
Context {A : Type} (less : A → A → bool).
Hypothesis less_irrefl : ∀ a, less a a = false.
Hypothesis less_trans : ∀ a b c, less a b = true → less b c = true → less a c = true.



Lemma insertBy_perm (x : A) (l : list A) : insertBy less x l ≡ₚ x :: l.
Proof.
  induction l as [|y rest IH]; simpl; [reflexivity|].
  destruct (less y x); [|reflexivity].
  rewrite IH. apply Permutation_swap.
Qed.

Lemma sortBy_perm (l : list A) : sortBy less l ≡ₚ l.
Proof.
  induction l as [|x rest IH]; simpl; [reflexivity|].
  rewrite insertBy_perm, IH. reflexivity.
Qed.




End sorting.



(** ** The byte-wise order of strings *)

Lemma stringLess_irrefl (a : string) : stringLess a a = false.
Proof.
  induction a as [|x a IH]; simpl; [reflexivity|].
  rewrite Z.ltb_irrefl. exact IH.
Qed.

Lemma stringLess_trans (a b c : string) :
  stringLess a b = true → stringLess b c = true → stringLess a c = true.
Proof.
  revert b c. induction a as [|x a IH]; intros [|y b] [|z c]; simpl; try congruence.
  destruct (byteZ x <? byteZ y) eqn:Hxy, (byteZ y <? byteZ x) eqn:Hyx,
    (byteZ y <? byteZ z) eqn:Hyz, (byteZ z <? byteZ y) eqn:Hzy,
    (byteZ x <? byteZ z) eqn:Hxz, (byteZ z <? byteZ x) eqn:Hzx;
    try congruence;
    rewrite ?Z.ltb_lt, ?Z.ltb_ge in *; try lia.
  apply IH.
Qed.

Lemma stringLess_total (a b : string) :
  a ≠ b → stringLess a b = true ∨ stringLess b a = true.
Proof.
  revert b. induction a as [|x a IH]; intros [|y b] Hne; simpl.
  - congruence.
  - by left.
  - by right.
  - destruct (byteZ x <? byteZ y) eqn:Hxy; [by left|].
    destruct (byteZ y <? byteZ x) eqn:Hyx; [by right|].
    apply Z.ltb_ge in Hxy, Hyx.
    assert (x = y) as -> by (apply byteZ_inj; lia).
    apply IH. congruence.
Qed.

(** ** Induction over nested values *)

Section GoValue_induction.
Context (P : GoValue → Prop).
Hypothesis Pnil : P GNil.
Hypothesis Pbool : ∀ b, P (GBool b).
Hypothesis Pfloat : ∀ f, P (GFloat f).
Hypothesis Pstring : ∀ s, P (GString s).
Hypothesis Pslice : ∀ elems, Forall P elems → P (GSlice elems).
Hypothesis Pmap : ∀ entries, Forall (λ e, P e.2) entries → P (GMap entries).
Hypothesis Pchan : P GChan.

End GoValue_induction.

Section JSON_induction.
Context (P : JSON → Prop).
Hypothesis Pnull : P JNull.
Hypothesis Pbool : ∀ b, P (JBool b).
Hypothesis Pnumber : ∀ f, P (JNumber f).
Hypothesis Pstring : ∀ s, P (JString s).
Hypothesis Parray : ∀ elems, Forall P elems → P (JArray elems).
Hypothesis Pobject : ∀ members, Forall (λ m, P m.2) members → P (JObject members).

Fixpoint JSON_deep_ind (j : JSON) : P j :=
  match j with
  | JNull => Pnull
  | JBool b => Pbool b
  | JNumber f => Pnumber f
  | JString s => Pstring s
  | JArray elems =>
      Parray elems
        ((fix go (l : list JSON) : Forall P l :=
            match l with
            | [] => List.Forall_nil _
            | x :: r => List.Forall_cons _ x r (JSON_deep_ind x) (go r)
            end) elems)
  | JObject members =>
      Pobject members
        ((fix go (l : list (string * JSON)) : Forall (λ m, P m.2) l :=
            match l with
            | [] => List.Forall_nil _
            | m :: r =>
                List.Forall_cons _ m r
                  (match m return P m.2 with (_, x) => JSON_deep_ind x end) (go r)
            end) members)
  end.
End JSON_induction.

(** ** The JSON text does not depend on the order of the entries *)







(** ** Decoding gives a well-formed value *)



Lemma mapSet_Forall {A : Type} (P : A → Prop) (k : string) (x : A) (m : list (string * A)) :
  P x → Forall (λ e, P e.2) m → Forall (λ e, P e.2) (mapSet k x m).
Proof.
  intros Hx. induction 1 as [|[k' y] rest Hy Hrest IH]; simpl.
  - repeat constructor. exact Hx.
  - case_bool_decide; constructor; assumption.
Qed.

Lemma decodeMembers_Forall (P : GoValue → Prop) (members : list (string * JSON)) :
  Forall (λ m, P (jsonDecode m.2)) members →
  ∀ acc, Forall (λ e, P e.2) acc →
    Forall (λ e, P e.2) (fold_left (λ m e, mapSet e.1 (jsonDecode e.2) m) members acc).
Proof.
  induction 1 as [|m rest Hm Hrest IH]; intros acc Hacc; simpl; [assumption|].
  apply IH. apply mapSet_Forall; assumption.
Qed.




(** ** The YAML document does not depend on the iteration order *)

Lemma yamlEncode_map `{YamlLib} (run : MapOrder) (entries : list (string * GoValue)) :
  yamlEncode run (GMap entries) =
    match collect (omap (λ k, pair k <$> mapIndex k (yamlValues run entries))
                     (yamlKeys run entries)) with
    | inl members => inl (YMap members)
    | inr e => inr e
    end.
Proof. reflexivity. Qed.

Lemma yamlValues_keys `{YamlLib} (run : MapOrder) (entries : list (string * GoValue)) :
  (yamlValues run entries).*1 = entries.*1.
Proof.
  unfold yamlValues. induction entries as [|e rest IH]; simpl; [reflexivity|].
  f_equal. exact IH.
Qed.

Lemma yamlKeys_perm `{YamlLib} (run : MapOrder) (entries : list (string * GoValue)) :
  yamlKeys run entries ≡ₚ entries.*1.
Proof.
  unfold yamlKeys. rewrite sortBy_perm, iterate_perm. rewrite yamlValues_keys. reflexivity.
Qed.



(** ** The keys of the document ascend *)

Lemma collectList_inl {A E : Type} (l : list (A + E)) (r : list A) :
  collectList l = inl r ↔ l = inl <$> r.
Proof.
  revert r. induction l as [|[a|e] rest IH]; intros r; simpl.
  - split; [intros [= <-]; reflexivity | destruct r; [reflexivity | discriminate]].
  - destruct (collectList rest) as [r'|e'] eqn:Hrest.
    + split.
      * intros [= <-]. csimpl. f_equal. apply IH. reflexivity.
      * destruct r as [|a' r'']; csimpl; [discriminate|]. intros [= -> Hr].
        apply IH in Hr. injection Hr as <-. reflexivity.
    + split; [discriminate|].
      destruct r as [|a' r'']; csimpl; [discriminate|]. intros [= -> Hr].
      apply IH in Hr. discriminate.
  - split; [discriminate | destruct r; csimpl; discriminate].
Qed.


Lemma mapIndex_elem {A : Type} (k : string) (m : list (string * A)) (x : A) :
  mapIndex k m = Some x → (k, x) ∈ m.
Proof.
  induction m as [|[k' y] rest IH]; simpl; [discriminate|].
  case_bool_decide as Hk.
  - intros [= <-]. subst k'. by left.
  - intros Hx. right. apply IH. exact Hx.
Qed.

Lemma mapIndex_is_Some {A : Type} (k : string) (m : list (string * A)) :
  k ∈ m.*1 → is_Some (mapIndex k m).
Proof.
  induction m as [|[k' y] rest IH]; csimpl; [inversion 1|].
  case_bool_decide as Hk; [eexists; reflexivity|].
  rewrite elem_of_cons. intros [Heq | Hin]; [congruence | apply IH; exact Hin].
Qed.

(** Looking every key up yields the keys again, each with a value of the
    map. *)
Lemma lookups_keys {A : Type} (keys : list string) (m : list (string * A)) :
  (∀ k, k ∈ keys → k ∈ m.*1) →
  (omap (λ k, pair k <$> mapIndex k m) keys).*1 = keys
  ∧ Forall (λ p, p ∈ m) (omap (λ k, pair k <$> mapIndex k m) keys).
Proof.
  induction keys as [|k rest IH]; intros Hin; csimpl; [split; [reflexivity | constructor]|].
  destruct (mapIndex_is_Some k m) as [x Hx]; [apply Hin; by left|].
  rewrite Hx. csimpl.
  destruct IH as [IHk IHm]; [intros k' Hk'; apply Hin; by right|].
  split; [f_equal; exact IHk|].
  constructor; [apply mapIndex_elem; exact Hx | exact IHm].
Qed.


Lemma jsonDecode_encodable `{YamlLib} (j : JSON) : encodable (jsonDecode j).
Proof.
  induction j as [| | | |elems IH|members IH] using JSON_deep_ind; intros run;
    try (eexists; reflexivity).
  - assert (Hitems : ∃ items, yamlEncode run <$> (jsonDecode <$> elems) = inl <$> items).
    { induction IH as [|x l Hx Hl IHl]; [exists []; reflexivity|].
      destruct (Hx run) as [doc Hdoc]. destruct IHl as [items Hitems].
      exists (doc :: items). csimpl. rewrite Hdoc, Hitems. reflexivity. }
    destruct Hitems as [items Hitems]. apply collectList_inl in Hitems.
    simpl. rewrite Hitems. eexists. reflexivity.
  - simpl jsonDecode. rewrite yamlEncode_map.
    set (entries := fold_left (λ m e, mapSet e.1 (jsonDecode e.2) m) members []).
    assert (Henc : Forall (λ e, encodable e.2) entries).
    { apply (decodeMembers_Forall encodable members IH []). constructor. }
    assert (Hall : ∀ l, Forall (λ p, p ∈ yamlValues run entries) l → ∃ r, collect l = inl r).
    { induction l as [|[k x] l IHl]; intros Hl; [exists []; reflexivity|].
      inversion Hl as [|? ? Hx Hl']; subst.
      destruct (IHl Hl') as [r Hr].
      unfold yamlValues in Hx. apply list_elem_of_fmap in Hx as (e & Heq & He).
      injection Heq as -> ->.
      rewrite Forall_forall in Henc. destruct (Henc e He run) as [doc Hdoc].
      exists ((e.1, doc) :: r). simpl. rewrite Hdoc, Hr. reflexivity. }
    destruct (lookups_keys (yamlKeys run entries) (yamlValues run entries)) as [_ Hvals].
    { intros k Hk. rewrite yamlKeys_perm in Hk. rewrite yamlValues_keys. exact Hk. }
    destruct (Hall _ Hvals) as [r Hr]. rewrite Hr. eexists. reflexivity.
Qed.

(** ** The configuration hash *)

Lemma HashObject_unfold `{UnicodeLib, YamlLib} (run : MapOrder) (o : GoValue) :
  HashObject run o =
    (computeHash (PrettyYaml run (normalized run o)).1,
     (match (json_Unmarshal (json_Marshal run o).1).2 with
      | Some e => [LogUnmarshal e]
      | None => []
      end ++ (PrettyYaml run (normalized run o)).2)%list).
Proof.
  unfold HashObject, normalized.
  destruct (json_Marshal run o) as [data merr]. cbn [fst].
  destruct (json_Unmarshal data) as [a err]. cbn [fst snd].
  destruct (PrettyYaml run a) as [text logged]. reflexivity.
Qed.

Lemma HashObject_canonicalForm `{UnicodeLib, YamlLib} (run : MapOrder) (o : GoValue) :
  (HashObject run o).1 = computeHash (canonicalForm run o).
Proof. rewrite HashObject_unfold. reflexivity. Qed.

(** C3: for every input, [computeHash] returns 56 characters, each a
    lowercase hexadecimal digit: the hex encoding of the 28 bytes (224 bits)
    of the digest.  So does [HashObject], which returns what [computeHash]
    makes of the canonical text. *)
Theorem computeHash_format `{UnicodeLib, YamlLib}
    (target : string) (run : MapOrder) (o : GoValue) :
  (String.length (computeHash target) = 56%nat
   ∧ allLowerHex (computeHash target) = true
   ∧ computeHash target = EncodeToString (sha256.Sum224 (bytesOf target))
   ∧ length (sha256.Sum224 (bytesOf target)) = 28%nat
   ∧ Forall isByte (sha256.Sum224 (bytesOf target)))
  ∧ (String.length (HashObject run o).1 = 56%nat
     ∧ allLowerHex (HashObject run o).1 = true).
Proof.
  split.
  - destruct (computeHash_shape target) as [Hlen Hhex].
    split; [exact Hlen|]. split; [exact Hhex|].
    split; [|split; [apply Sum224_length | apply Sum224_bytes]].
    unfold computeHash. cbv zeta. apply ToLower_lower_hex.
    apply EncodeToString_lower, Sum224_bytes.
  - rewrite HashObject_canonicalForm. apply computeHash_shape.
Qed.




Lemma normalized_encodable `{UnicodeLib, YamlLib} (run : MapOrder) (o : GoValue) :
  encodable (normalized run o).
Proof.
  unfold normalized, json_Marshal. destruct (jsonEncode run o) as [j|e]; simpl.
  - apply jsonDecode_encodable.
  - intros run'. eexists. reflexivity.
Qed.




(** C4 (amended): [HashObject] is total and returns a digest of 56 lowercase
    hex digits for every input, a failure being logged at most.  Hashing
    [nil] and hashing the empty map both succeed without a failure; their
    canonical forms are the texts "null" and "{}", each with a line feed.
    A value that cannot be marshalled is hashed as [nil] is. *)
Theorem HashObject_total `{UnicodeLib, YamlLib} (run : MapOrder) (o : GoValue) :
  (∃ digest logged,
      HashObject run o = (digest, logged)
      ∧ digest = computeHash (canonicalForm run o)
      ∧ String.length digest = 56%nat ∧ allLowerHex digest = true)
  ∧ (canonicalForm run GNil = "null" ++ LF
     ∧ HashObject run GNil = (computeHash ("null" ++ LF), []))
  ∧ (canonicalForm run (GMap []) = "{}" ++ LF
     ∧ HashObject run (GMap []) = (computeHash ("{}" ++ LF), []))
  ∧ (HashObject run (GMap [])).1 ≠ (HashObject run GNil).1
  ∧ (∀ e, jsonEncode run o = inr e →
       HashObject run o = (computeHash ("null" ++ LF), [LogUnmarshal UnexpectedEndOfInput])).
Proof.
  split.
  { exists (HashObject run o).1, (HashObject run o).2.
    split; [destruct (HashObject run o); reflexivity|].
    split; [apply HashObject_canonicalForm|].
    rewrite HashObject_canonicalForm.
    destruct (computeHash_shape (canonicalForm run o)) as [Hlen Hhex].
    split; assumption. }
  assert (Hmap : ∀ r, iterate r (JSON + MarshalError) [] = []).
  { intros r. apply Permutation_nil_r. apply iterate_perm. }
  assert (Hmap' : ∀ r, iterate r (YNode + YamlError) [] = []).
  { intros r. apply Permutation_nil_r. apply iterate_perm. }
  assert (Hnil : canonicalForm run GNil = "null" ++ LF).
  { unfold canonicalForm, PrettyYaml, yaml_Marshal. simpl. apply emit_null. }
  assert (Hempty : canonicalForm run (GMap []) = "{}" ++ LF).
  { unfold canonicalForm, PrettyYaml, yaml_Marshal, json_Marshal. simpl.
    rewrite Hmap. simpl. rewrite Hmap'. simpl. apply emit_empty_map. }
  split; [|split; [|split]].
  - split; [exact Hnil|].
    unfold HashObject, PrettyYaml, yaml_Marshal. simpl. rewrite emit_null. reflexivity.
  - split; [exact Hempty|].
    unfold HashObject, PrettyYaml, yaml_Marshal, json_Marshal. simpl.
    rewrite Hmap. simpl. rewrite Hmap'. simpl. rewrite emit_empty_map. reflexivity.
  - rewrite !HashObject_canonicalForm, Hnil, Hempty.
    rewrite !computeHash_hex. vm_compute. discriminate.
  - intros e He. unfold HashObject, PrettyYaml, yaml_Marshal, json_Marshal.
    rewrite He. simpl. rewrite emit_null. reflexivity.
Qed.

(** X1: inside [HashObject] the YAML step never fails: what was decoded from
    the JSON text holds nothing [yaml] refuses, so [PrettyYaml] logs
    nothing there and the canonical text is the rendering of a document. *)
Theorem HashObject_yaml_never_fails `{UnicodeLib, YamlLib} (run : MapOrder) (o : GoValue) :
  (PrettyYaml run (normalized run o)).2 = []
  ∧ ∃ doc, yamlEncode run (normalized run o) = inl doc
           ∧ canonicalForm run o = emit doc.
Proof.
  destruct (normalized_encodable run o run) as [doc Hdoc].
  unfold canonicalForm. fold (normalized run o).
  unfold PrettyYaml, yaml_Marshal. rewrite Hdoc. simpl.
  split; [reflexivity|]. exists doc. split; reflexivity.
Qed.

(** * Further properties *)

(** ** Node addresses and labels *)

Lemma internalIPLoop_filter `{NetLib} (ip : string) (addrs : list NodeAddress) :
  internalIPLoop ip addrs = internalIPLoop ip (filter internalIPEntry addrs)
  ∧ internalIPLoop ip addrs = from_option Address ip (head (filter internalIPEntry addrs)).
Proof.
  induction addrs as [|a rest [IH1 IH2]]; [split; reflexivity|].
  rewrite filter_cons. simpl internalIPLoop at 1 3.
  destruct (isInternalIP a) eqn:Ha.
  - apply isInternalIP_true in Ha. rewrite decide_True by assumption.
    simpl. apply isInternalIP_true in Ha. rewrite Ha. split; reflexivity.
  - apply isInternalIP_false in Ha. rewrite decide_False by assumption.
    split; assumption.
Qed.

(** X2: a non-empty result of [GetNodeInternalIP] is the address of an
    internal-IP entry of the node and parses as an IP literal; entries that
    do not qualify can be dropped from the list without changing the result,
    which is the address of the first entry left. *)
Theorem GetNodeInternalIP_sound `{NetLib} (node : Node) :
  (GetNodeInternalIP node = ""
   ∨ ∃ addr, addr ∈ Addresses node ∧ addrType addr = NodeInternalIP
             ∧ is_Some (ParseIP (GetNodeInternalIP node))
             ∧ Address addr = GetNodeInternalIP node)
  ∧ GetNodeInternalIP node
    = GetNodeInternalIP (withAddresses node (filter internalIPEntry (Addresses node)))
  ∧ GetNodeInternalIP node
    = from_option Address "" (head (filter internalIPEntry (Addresses node))).
Proof.
  unfold GetNodeInternalIP. simpl.
  destruct (internalIPLoop_filter "" (Addresses node)) as [Hf Hh].
  split; [|split; assumption].
  rewrite Hh. destruct (filter internalIPEntry (Addresses node)) as [|a l] eqn:Hl.
  - left. reflexivity.
  - right. exists a. simpl.
    assert (Ha : a ∈ filter internalIPEntry (Addresses node)) by (rewrite Hl; by left).
    apply list_elem_of_filter in Ha as [[Ht Hp] Hin].
    repeat split; assumption.
Qed.

(** X3: which error [TryCreateActiveEndpointCandidate] returns.  Without the
    candidate label the error is the one about that label, whatever the
    public-IP label holds, and it wraps nothing; with the label, the error
    wraps the error of [GetEdgeNodePublicIP], which [errors.Unwrap] gives
    back. *)
Theorem TryCreateActiveEndpointCandidate_errors `{NetLib, RavenAPI} (node : Node) :
  let r := TryCreateActiveEndpointCandidate node in
  (Labels node !! LabelEndpointCandidate = None →
     r = (None, Some (ErrNoCandidateLabel LabelEndpointCandidate (Labels node))))
  ∧ (∀ e, r.2 = Some e →
       (Labels node !! LabelEndpointCandidate = None ∧ Unwrap e = None)
       ∨ (is_Some (Labels node !! LabelEndpointCandidate)
          ∧ ∃ cause, (GetEdgeNodePublicIP node).2 = Some cause
                     ∧ Unwrap e = Some cause
                     ∧ (missingLabel cause ∨ invalidFormat cause))).
Proof.
  unfold TryCreateActiveEndpointCandidate.
  destruct (Labels node !! LabelEndpointCandidate) as [value|] eqn:Hc; simpl.
  - split; [discriminate|].
    intros e He. right. split; [eexists; reflexivity|].
    unfold GetEdgeNodePublicIP in *.
    destruct (Labels node !! LabelNodeProviderPublicIP) as [ip|]; simpl in *.
    + destruct (ParseIP ip); simpl in *; [discriminate|].
      injection He as <-. eexists. split; [reflexivity|]. split; [reflexivity|].
      right. do 3 eexists. reflexivity.
    + injection He as <-. eexists. split; [reflexivity|]. split; [reflexivity|].
      left. do 2 eexists. reflexivity.
  - split; [reflexivity|].
    intros e [= <-]. left. split; reflexivity.
Qed.

(** X4: the endpoint depends on the name, the creation time and the
    public-IP label of the node only: not on its addresses, not on the value
    under the candidate label, not on any other label. *)
Theorem TryCreateActiveEndpointCandidate_frame `{NetLib, RavenAPI} (node1 node2 : Node) :
  Name node1 = Name node2 →
  CreationTimestamp node1 = CreationTimestamp node2 →
  Labels node1 !! LabelNodeProviderPublicIP = Labels node2 !! LabelNodeProviderPublicIP →
  is_Some (Labels node1 !! LabelEndpointCandidate) →
  is_Some (Labels node2 !! LabelEndpointCandidate) →
  (TryCreateActiveEndpointCandidate node1).1 = (TryCreateActiveEndpointCandidate node2).1.
Proof.
  intros Hname Htime Hip [v1 Hv1] [v2 Hv2].
  unfold TryCreateActiveEndpointCandidate, GetEdgeNodePublicIP.
  rewrite Hv1, Hv2, Hip, Hname, Htime.
  destruct (Labels node2 !! LabelNodeProviderPublicIP) as [ip|]; [|reflexivity].
  destruct (ParseIP ip); reflexivity.
Qed.

(** ** Feature flags *)

(** X5: for an ASCII value under [enable-l7-proxy], the proxy flag is on
    exactly when the value spells "true" in some mix of cases: four
    letters, nothing trimmed, and no other word ("1", "yes", "on") counts. *)
Theorem CheckServer_proxy_ascii `{UnicodeLib}
    (client : Client) (cm : ConfigMap) (val : string) :
  Get client WorkingNamespace RavenGlobalConfig = Some cm →
  Data cm !! RavenEnableProxy = Some val →
  isASCII val = true →
  ((CheckServer client).1 = true ↔ spellsTrue val).
Proof.
  intros Hget Hval Hascii.
  rewrite (CheckServer_fetched client cm Hget). unfold flagMatches. rewrite Hval.
  simpl. rewrite bool_decide_eq_true.
  apply ToLower_true_ascii. exact Hascii.
Qed.

(** X18: the flags depend on one thing only, the value found under
    [enable-l7-proxy] in the global config map: two clusters that agree on
    it get the same flags, whatever else their config maps hold, and a
    config map that cannot be fetched counts like one without the key. *)
Theorem CheckServer_frame `{UnicodeLib} (client1 client2 : Client) :
  Get client1 WorkingNamespace RavenGlobalConfig ≫= (λ cm, Data cm !! RavenEnableProxy)
  = Get client2 WorkingNamespace RavenGlobalConfig ≫= (λ cm, Data cm !! RavenEnableProxy) →
  CheckServer client1 = CheckServer client2.
Proof.
  assert (Hshape : ∀ client,
    CheckServer client
    = (match Get client WorkingNamespace RavenGlobalConfig
             ≫= (λ cm, Data cm !! RavenEnableProxy) with
       | Some val => bool_decide (ToLower val = "true")
       | None => false
       end, true)).
  { intros client. unfold CheckServer.
    destruct (Get client WorkingNamespace RavenGlobalConfig) as [cm|]; [|reflexivity].
    simpl.
    destruct (Data cm !! RavenEnableProxy) as [p|];
      destruct (Data cm !! RavenEnableTunnel) as [t|]; simpl;
      repeat case_bool_decide; reflexivity. }
  intros Heq. rewrite (Hshape client1), (Hshape client2), Heq. reflexivity.
Qed.

(** ** Ports and printed numbers *)

Lemma pretty_N_char_digit (d : N) :
  (d < 10)%N → isDigit (pretty_N_char d) = true ∧ digitOf (pretty_N_char d) = Z.of_N d.
Proof.
  intros Hd.
  assert (Hnat : ∀ k : nat, (k < 10)%nat →
    isDigit (pretty_N_char (N.of_nat k)) = true
    ∧ digitOf (pretty_N_char (N.of_nat k)) = Z.of_N (N.of_nat k)).
  { intros k Hk. do 10 (destruct k as [|k]; [split; reflexivity|]). lia. }
  rewrite <- (N2Nat.id d). apply Hnat. lia.
Qed.

(** The digits [pretty] writes in front of [s] are decimal digits, and
    they denote the number. *)
Lemma pretty_N_go_value (x : N) : ∀ s,
  allDigits s = true →
  allDigits (pretty_N_go x s) = true
  ∧ decimalValue (pretty_N_go x s)
    = Z.of_N x * 10 ^ Z.of_nat (String.length s) + decimalValue s
  ∧ (String.length s ≤ String.length (pretty_N_go x s))%nat
  ∧ ((0 < x)%N → pretty_N_go x s ≠ s).
Proof.
  induction (N.lt_wf_0 x) as [x _ IH]. intros s Hs.
  destruct (decide (x = 0)%N) as [-> | Hx].
  - rewrite pretty_N_go_0. split; [assumption|]. split; [lia|]. split; [lia|]. lia.
  - rewrite pretty_N_go_step by lia.
    destruct (pretty_N_char_digit (x `mod` 10)%N) as [Hd Hv].
    { apply N.mod_lt. discriminate. }
    destruct (IH (x `div` 10)%N) with (s := String (pretty_N_char (x `mod` 10)) s)
      as (Ha & Hval & Hlen & _).
    { apply N.div_lt; lia. }
    { simpl. rewrite Hd, Hs. reflexivity. }
    split; [exact Ha|]. split; [|split].
    + rewrite Hval. simpl String.length. simpl decimalValue. rewrite Hv.
      rewrite Nat2Z.inj_succ, Z.pow_succ_r by lia.
      rewrite N2Z.inj_div, N2Z.inj_mod.
      change (Z.of_N 10) with 10.
      pose proof (Z.div_mod (Z.of_N x) 10 ltac:(lia)) as Hdm.
      rewrite Hdm at 3. ring.
    + simpl String.length in Hlen. lia.
    + intros _ Heq. rewrite Heq in Hlen. simpl in Hlen. lia.
Qed.

Lemma pretty_N_value (x : N) :
  allDigits (pretty x) = true ∧ decimalValue (pretty x) = Z.of_N x ∧ pretty x ≠ "".
Proof.
  unfold pretty, pretty_N. destruct (decide (x = 0)%N) as [-> | Hx].
  - repeat split. discriminate.
  - destruct (pretty_N_go_value x "" eq_refl) as (Ha & Hv & _ & Hne).
    split; [exact Ha|]. split; [rewrite Hv; simpl; lia|]. apply Hne. lia.
Qed.

(** [fmt.Sprintf("%d", n)] is a base-10 text of [n]. *)
Lemma formatInt_base10 (n : Z) : base10 (formatInt n) n.
Proof.
  unfold formatInt, pretty, pretty_Z. destruct n as [|p|p].
  - apply (base10_plain "0"); [discriminate | reflexivity].
  - destruct (pretty_N_value (N.pos p)) as (Ha & Hv & Hne).
    change (Z.pos p) with (Z.of_N (N.pos p)). rewrite <- Hv.
    apply base10_plain; assumption.
  - destruct (pretty_N_value (N.pos p)) as (Ha & Hv & Hne).
    replace (Z.neg p) with (- decimalValue (pretty (N.pos p))) by (rewrite Hv; reflexivity).
    apply (base10_minus (pretty (N.pos p))); assumption.
Qed.

(** A base-10 text denotes one number. *)
Lemma base10_functional (s : string) (n m : Z) : base10 s n → base10 s m → n = m.
Proof.
  intros Hn Hm.
  destruct Hn as [ds Hne Ha | ds Hne Ha | ds Hne Ha];
    inversion Hm as [ds' Hne' Ha' Heq | ds' Hne' Ha' Heq | ds' Hne' Ha' Heq];
    subst; try reflexivity.
  - destruct ds' as [|c r]; [congruence|]. simpl in Ha. discriminate.
  - destruct ds' as [|c r]; [congruence|]. simpl in Ha. discriminate.
  - simpl in Ha'. discriminate.
  - simpl in Ha'. discriminate.
Qed.

Lemma IsValidPort_base10 (s : string) :
  IsValidPort s = true ↔ ∃ n, base10 s n ∧ 0 ≤ n ≤ 65535.
Proof.
  unfold IsValidPort. split.
  - case_bool_decide as Hempty; [discriminate|].
    destruct (Atoi s) as [port [err|]] eqn:Hatoi; [discriminate|].
    destruct ((port <? 0) || (port >? 65535)) eqn:Hrange; [discriminate|].
    intros _. apply orb_false_iff in Hrange as [Hlo Hhi].
    apply Z.ltb_ge in Hlo. rewrite Z.gtb_ltb in Hhi. apply Z.ltb_ge in Hhi.
    apply Atoi_ok in Hatoi as [Hb _]. exists port. split; [assumption | lia].
  - intros (n & Hb & Hn).
    rewrite bool_decide_eq_false_2 by (eapply base10_nonempty; eassumption).
    assert (Hatoi : Atoi s = (n, None)).
    { apply Atoi_ok. split; [assumption | unfold intCutoff; lia]. }
    rewrite Hatoi.
    replace ((n <? 0) || (n >? 65535)) with false; [reflexivity|].
    symmetry. apply orb_false_iff. rewrite Z.gtb_ltb, !Z.ltb_ge. lia.
Qed.

(** X6: a number printed in decimal is a valid port exactly when it lies
    in [0, 65535]. *)
Theorem IsValidPort_formatInt (p : Z) :
  IsValidPort (formatInt p) = bool_decide (0 ≤ p ≤ 65535).
Proof.
  pose proof (formatInt_base10 p) as Hb.
  case_bool_decide as Hp.
  - apply IsValidPort_base10. exists p. split; assumption.
  - destruct (IsValidPort (formatInt p)) eqn:Hv; [|reflexivity].
    apply IsValidPort_base10 in Hv as (n & Hn & Hrange).
    rewrite (base10_functional _ _ _ Hb Hn) in Hp. contradiction.
Qed.

Lemma IsValidPort_of_base10 (s : string) (v : Z) :
  base10 s v → (IsValidPort s = true ↔ 0 ≤ v ≤ 65535).
Proof.
  intros Hb. rewrite IsValidPort_base10. split.
  - intros (n & Hn & Hr). rewrite (base10_functional _ _ _ Hb Hn). exact Hr.
  - intros Hr. exists v. split; assumption.
Qed.

Lemma bool_eq_iff (a b : bool) : (a = true ↔ b = true) → a = b.
Proof. destruct a, b; intros [H1 H2]; try reflexivity; [symmetry; auto | auto]. Qed.

(** X7: [IsValidPort] accepts more than the usual way of writing a port: a
    plus sign or any number of leading zeros in front of the digits change
    nothing, and a minus sign is accepted when the digits denote zero. *)
Theorem IsValidPort_forms (ds : string) :
  ds ≠ "" → allDigits ds = true →
  IsValidPort (String "+" ds) = IsValidPort ds
  ∧ IsValidPort (String "0" ds) = IsValidPort ds
  ∧ (IsValidPort (String "-" ds) = true ↔ decimalValue ds = 0).
Proof.
  intros Hne Ha.
  pose proof (decimalValue_bounds ds Ha) as Hb.
  pose proof (IsValidPort_of_base10 ds _ (base10_plain ds Hne Ha)) as Hplain.
  split; [|split].
  - apply bool_eq_iff.
    rewrite (IsValidPort_of_base10 _ _ (base10_plus ds Hne Ha)), Hplain. reflexivity.
  - apply bool_eq_iff.
    assert (Hzero : base10 (String "0" ds) (decimalValue ds)).
    { replace (decimalValue ds) with (decimalValue (String "0" ds)).
      - apply base10_plain; [discriminate|]. simpl. exact Ha.
      - simpl. unfold digitOf. change (byteZ "0" - 48) with 0. lia. }
    rewrite (IsValidPort_of_base10 _ _ Hzero), Hplain. reflexivity.
  - rewrite (IsValidPort_of_base10 _ _ (base10_minus ds Hne Ha)). lia.
Qed.

(** X8: the creation time that [TryCreateActiveEndpointCandidate] stores
    in the config of the endpoint is a decimal text that [strconv.Atoi]
    reads back as the creation time of the node (a Unix time, in the range
    of [int64]). *)
Theorem TryCreateActiveEndpointCandidate_timestamp `{NetLib, RavenAPI}
    (node : Node) (endpoint : Endpoint) :
  TryCreateActiveEndpointCandidate node = (Some endpoint, None) →
  -9223372036854775808 ≤ CreationTimestamp node < 9223372036854775808 →
  ∃ text, Config endpoint !! ConfigCreationTimestampKey = Some text
          ∧ Atoi text = (CreationTimestamp node, None)
          ∧ ∀ key, key ≠ ConfigCreationTimestampKey → Config endpoint !! key = None.
Proof.
  intros Hcreate Hrange. unfold TryCreateActiveEndpointCandidate in Hcreate.
  destruct (Labels node !! LabelEndpointCandidate); [|discriminate].
  destruct (GetEdgeNodePublicIP node) as [ip [err|]]; [discriminate|].
  injection Hcreate as <-. simpl.
  exists (formatInt (CreationTimestamp node)).
  split; [apply lookup_insert_eq|]. split.
  - apply Atoi_ok. split; [apply formatInt_base10 | unfold intCutoff; lia].
  - intros key Hkey. rewrite lookup_insert_ne by congruence. apply lookup_empty.
Qed.

(** ** Unique names *)

Lemma string_app_cons (c : ascii) (s t : string) :
  (String c s ++ t)%string = String c (s ++ t)%string.
Proof. reflexivity. Qed.

Lemma string_app_nil (t : string) : (EmptyString ++ t)%string = t.
Proof. reflexivity. Qed.

Lemma string_length_app (s t : string) :
  String.length (s ++ t) = (String.length s + String.length t)%nat.
Proof.
  induction s as [|c s IH]; [reflexivity|].
  rewrite string_app_cons. simpl. rewrite IH. reflexivity.
Qed.

(** Two texts that end in tails of the same length agree part by part. *)
Lemma string_app_inj_tail (s1 s2 t1 t2 : string) :
  String.length t1 = String.length t2 → (s1 ++ t1 = s2 ++ t2)%string → s1 = s2 ∧ t1 = t2.
Proof.
  revert s2. induction s1 as [|c s1 IH]; intros [|d s2] Hlen Heq.
  - rewrite !string_app_nil in Heq. split; [reflexivity | assumption].
  - exfalso. apply (f_equal String.length) in Heq.
    rewrite !string_length_app in Heq. simpl in Heq. lia.
  - exfalso. apply (f_equal String.length) in Heq.
    rewrite !string_length_app in Heq. simpl in Heq. lia.
  - rewrite !string_app_cons in Heq. injection Heq as -> Heq.
    destruct (IH s2 Hlen Heq) as [-> ->]. split; reflexivity.
Qed.

Lemma hexDigit_inj (a b : Z) :
  0 ≤ a < 16 → 0 ≤ b < 16 → hexDigit a = hexDigit b → a = b.
Proof.
  intros Ha Hb.
  assert (Hnat : ∀ i j : nat, (i < 16)%nat → (j < 16)%nat →
    hexDigit (Z.of_nat i) = hexDigit (Z.of_nat j) → i = j).
  { intros i j Hi Hj.
    do 16 (destruct i as [|i]; [do 16 (destruct j as [|j]; [reflexivity || discriminate|]); lia|]).
    lia. }
  intros Heq. rewrite <- (Z2Nat.id a), <- (Z2Nat.id b) in Heq |- * by lia.
  f_equal. apply Hnat; [lia | lia | exact Heq].
Qed.

Lemma nibble_range (v k : Z) : 0 ≤ Z.land (Z.shiftr v k) 15 < 16.
Proof.
  change 15 with (Z.ones 4). rewrite Z.land_ones by lia.
  apply Z.mod_pos_bound. reflexivity.
Qed.

Lemma nibble_div (v k : Z) : 0 ≤ k → Z.land (Z.shiftr v k) 15 = (v / 2 ^ k) mod 16.
Proof.
  intros Hk. change 15 with (Z.ones 4). rewrite Z.land_ones by lia.
  rewrite Z.shiftr_div_pow2 by lia. reflexivity.
Qed.

Lemma Sprintf08x_shape (v : Z) :
  String.length (Sprintf08x v) = 8%nat ∧ allLowerHex (Sprintf08x v) = true.
Proof.
  unfold Sprintf08x. cbn [map string_of_list_ascii String.length allLowerHex].
  split; [reflexivity|].
  rewrite !hexDigit_lower by apply nibble_range. reflexivity.
Qed.

Lemma hex_digit_step (a b : Z) : a mod 16 = b mod 16 → a / 16 = b / 16 → a = b.
Proof.
  intros Hm Hd. rewrite (Z.div_mod a 16), (Z.div_mod b 16) by lia. congruence.
Qed.

Lemma Sprintf08x_inj (v w : Z) :
  isUint32 v → isUint32 w → Sprintf08x v = Sprintf08x w → v = w.
Proof.
  unfold isUint32, Sprintf08x. intros Hv Hw.
  cbn [map string_of_list_ascii]. intros Heq.
  injection Heq as H7 H6 H5 H4 H3 H2 H1 H0.
  apply hexDigit_inj in H7, H6, H5, H4, H3, H2, H1, H0; try apply nibble_range.
  rewrite !nibble_div in * by lia.
  assert (Hdiv : ∀ x k, 0 < k → x / k / 16 = x / (k * 16)).
  { intros x k Hk. apply Z.div_div; lia. }
  assert (E8 : v / (268435456 * 16) = w / (268435456 * 16)).
  { rewrite !Z.div_small by lia. reflexivity. }
  change (2 ^ 28) with 268435456 in H7. change (2 ^ 24) with (16777216) in H6.
  change (2 ^ 20) with 1048576 in H5. change (2 ^ 16) with 65536 in H4.
  change (2 ^ 12) with 4096 in H3. change (2 ^ 8) with 256 in H2.
  change (2 ^ 4) with 16 in H1. change (2 ^ 0) with 1 in H0.
  assert (E7 : v / 268435456 = w / 268435456).
  { apply hex_digit_step; [exact H7|]. rewrite !Hdiv by lia. exact E8. }
  assert (E6 : v / 16777216 = w / 16777216).
  { apply hex_digit_step; [exact H6|]. rewrite !Hdiv by lia. exact E7. }
  assert (E5 : v / 1048576 = w / 1048576).
  { apply hex_digit_step; [exact H5|]. rewrite !Hdiv by lia. exact E6. }
  assert (E4 : v / 65536 = w / 65536).
  { apply hex_digit_step; [exact H4|]. rewrite !Hdiv by lia. exact E5. }
  assert (E3 : v / 4096 = w / 4096).
  { apply hex_digit_step; [exact H3|]. rewrite !Hdiv by lia. exact E4. }
  assert (E2 : v / 256 = w / 256).
  { apply hex_digit_step; [exact H2|]. rewrite !Hdiv by lia. exact E3. }
  assert (E1 : v / 16 = w / 16).
  { apply hex_digit_step; [exact H1|]. rewrite !Hdiv by lia. exact E2. }
  rewrite !Z.div_1_r in H0. apply hex_digit_step; assumption.
Qed.

Lemma FormatName_unfold (token : Z) (name : string) :
  FormatName token name = (name ++ "-" ++ Sprintf08x token)%string.
Proof. reflexivity. Qed.

(** X9: a formatted name is the name, a dash and eight lowercase
    hexadecimal digits: nine characters longer than the name, which is what
    is left when they are cut off. *)
Theorem FormatName_shape (token : Z) (name : string) :
  ∃ suffix,
    FormatName token name = (name ++ "-" ++ suffix)%string
    ∧ String.length suffix = 8%nat ∧ allLowerHex suffix = true
    ∧ String.length (FormatName token name) = (String.length name + 9)%nat
    ∧ String.substring 0 (String.length name) (FormatName token name) = name.
Proof.
  destruct (Sprintf08x_shape token) as [Hlen Hhex].
  exists (Sprintf08x token). rewrite FormatName_unfold.
  split; [reflexivity|]. split; [exact Hlen|]. split; [exact Hhex|]. split.
  - rewrite !string_length_app, Hlen. simpl. lia.
  - generalize ("-" ++ Sprintf08x token)%string. intros t.
    induction name as [|c name IH]; simpl.
    + destruct t; reflexivity.
    + rewrite IH. reflexivity.
Qed.

(** X10: the name and the token can both be read off a formatted name: two
    formatted names are equal only for the same name and the same token, so
    different tokens always give different names, also when the name itself
    contains dashes or hex digits. *)
Theorem FormatName_inj (token1 token2 : Z) (name1 name2 : string) :
  isUint32 token1 → isUint32 token2 →
  FormatName token1 name1 = FormatName token2 name2 →
  name1 = name2 ∧ token1 = token2.
Proof.
  intros Ht1 Ht2. rewrite !FormatName_unfold. intros Heq.
  destruct (Sprintf08x_shape token1) as [Hl1 _].
  destruct (Sprintf08x_shape token2) as [Hl2 _].
  apply string_app_inj_tail in Heq as [Hname Htail].
  - split; [exact Hname|].
    rewrite !string_app_cons, !string_app_nil in Htail.
    apply Sprintf08x_inj; [assumption | assumption |].
    revert Htail. generalize (Sprintf08x token1), (Sprintf08x token2).
    intros a b [= Hab]. exact Hab.
  - rewrite !string_length_app, Hl1, Hl2. reflexivity.
Qed.

(** ** The work queue *)

Lemma Add_dirty (item : Request) (q : WorkQueue) :
  shuttingDown q = false → item ∈ dirty (Add item q).
Proof.
  intros Hs. unfold Add. rewrite Hs.
  case_bool_decide as Hd; [assumption|].
  case_bool_decide; simpl; apply elem_of_union_l, elem_of_singleton; reflexivity.
Qed.

Lemma Add_shuttingDown (item : Request) (q : WorkQueue) :
  shuttingDown (Add item q) = shuttingDown q.
Proof.
  unfold Add. destruct (shuttingDown q) eqn:Hs; [assumption|].
  repeat case_bool_decide; simpl; assumption || reflexivity.
Qed.

Lemma Add_idem (item : Request) (q : WorkQueue) :
  Add item (Add item q) = Add item q.
Proof.
  destruct (shuttingDown q) eqn:Hs.
  - unfold Add. rewrite !Hs. reflexivity.
  - pose proof (Add_dirty item q Hs) as Hd.
    pose proof (Add_shuttingDown item q) as Hs'. rewrite Hs in Hs'.
    unfold Add at 1. rewrite Hs', bool_decide_eq_true_2 by assumption. reflexivity.
Qed.

Lemma Add_fresh (item : Request) (q : WorkQueue) :
  shuttingDown q = false → item ∉ dirty q → item ∉ processing q →
  Add item q = {| queue := queue q ++ [item]; dirty := {[ item ]} ∪ dirty q;
                  processing := processing q; shuttingDown := false |}.
Proof.
  intros Hs Hd Hp. unfold Add.
  rewrite Hs, bool_decide_eq_false_2, bool_decide_eq_false_2 by assumption.
  reflexivity.
Qed.

Lemma Add_inv (item : Request) (q : WorkQueue) : queueInv q → queueInv (Add item q).
Proof.
  intros [Hnd Hq]. unfold Add.
  destruct (shuttingDown q); [split; assumption|].
  case_bool_decide as Hd; [split; assumption|].
  case_bool_decide as Hp; unfold queueInv; simpl.
  - split; [assumption|]. intros x. rewrite Hq, elem_of_union, elem_of_singleton.
    split; [intros [Hx Hx']; split; [by right | assumption]|].
    intros [[-> | Hx] Hx']; [contradiction | split; assumption].
  - split.
    + apply NoDup_app. split; [assumption|]. split; [|apply NoDup_singleton].
      intros x Hx Hx'. apply list_elem_of_singleton in Hx'. subst x.
      apply Hq in Hx as [Hx _]. contradiction.
    + intros x. rewrite elem_of_app, list_elem_of_singleton, Hq, elem_of_union,
        elem_of_singleton.
      split.
      * intros [[Hx Hx'] | ->]; [split; [by right | assumption] | split; [by left | assumption]].
      * intros [[-> | Hx] Hx']; [by right | left; split; assumption].
Qed.

(** X11: an empty gateway or node pool name adds nothing, and each helper
    is idempotent: calling it again for the same name, before the request
    was taken off the queue, leaves the queue as the first call left it. *)
Theorem AddToWorkQueue_idempotent (name : string) (q : WorkQueue) :
  AddGatewayToWorkQueue "" q = q
  ∧ AddNodePoolToWorkQueue "" q = q
  ∧ AddGatewayToWorkQueue name (AddGatewayToWorkQueue name q) = AddGatewayToWorkQueue name q
  ∧ AddNodePoolToWorkQueue name (AddNodePoolToWorkQueue name q) = AddNodePoolToWorkQueue name q
  ∧ AddDNSConfigmapToWorkQueue (AddDNSConfigmapToWorkQueue q) = AddDNSConfigmapToWorkQueue q
  ∧ AddGatewayProxyInternalService (AddGatewayProxyInternalService q)
    = AddGatewayProxyInternalService q.
Proof.
  split; [reflexivity|]. split; [reflexivity|].
  unfold AddGatewayToWorkQueue, AddNodePoolToWorkQueue, AddDNSConfigmapToWorkQueue,
    AddGatewayProxyInternalService.
  repeat split; try apply Add_idem;
    case_bool_decide; [apply Add_idem | reflexivity | apply Add_idem | reflexivity].
Qed.

(** X12: the helpers keep the queue in order (no request waits twice, and
    the waiting requests are the dirty ones that are not in process); on a
    queue that is not shutting down, a gateway with a non-empty name is
    dirty afterwards, and waits in the queue unless it is being processed. *)
Theorem AddToWorkQueue_invariant (name : string) (q : WorkQueue) :
  queueInv q → shuttingDown q = false → name ≠ "" →
  queueInv (AddGatewayToWorkQueue name q)
  ∧ queueInv (AddNodePoolToWorkQueue name q)
  ∧ queueInv (AddDNSConfigmapToWorkQueue q)
  ∧ queueInv (AddGatewayProxyInternalService q)
  ∧ namedRequest name ∈ dirty (AddGatewayToWorkQueue name q)
  ∧ (namedRequest name ∉ processing q →
     namedRequest name ∈ queue (AddGatewayToWorkQueue name q)).
Proof.
  intros Hinv Hs Hname.
  unfold AddGatewayToWorkQueue, AddNodePoolToWorkQueue, AddDNSConfigmapToWorkQueue,
    AddGatewayProxyInternalService.
  rewrite !bool_decide_eq_true_2 by assumption. fold (namedRequest name).
  split; [apply Add_inv; assumption|]. split; [apply Add_inv; assumption|].
  split; [apply Add_inv; assumption|]. split; [apply Add_inv; assumption|].
  split; [apply Add_dirty; exact Hs|].
  intros Hp. destruct (Add_inv (namedRequest name) q Hinv) as [_ Hq].
  apply Hq. split; [apply Add_dirty; exact Hs|].
  unfold Add. rewrite Hs. repeat case_bool_decide; simpl; assumption.
Qed.

(** X13: the requests of the helpers do not run into each other: a gateway
    or node pool request has no namespace, the two fixed requests live in
    [kube-system] under different names.  On an empty queue the DNS config
    map, the proxy service and a gateway of any name wait as three
    requests, while a node pool named like a gateway adds nothing to it. *)
Theorem AddToWorkQueue_distinct (name : string) :
  name ≠ "" →
  queue (AddNodePoolToWorkQueue name
           (AddGatewayToWorkQueue name
              (AddGatewayProxyInternalService
                 (AddDNSConfigmapToWorkQueue emptyQueue))))
  = [dnsRequest; proxyServiceRequest; namedRequest name].
Proof.
  intros Hname.
  unfold AddGatewayToWorkQueue, AddNodePoolToWorkQueue, AddDNSConfigmapToWorkQueue,
    AddGatewayProxyInternalService.
  rewrite !bool_decide_eq_true_2 by assumption.
  fold (namedRequest name). fold dnsRequest. fold proxyServiceRequest.
  rewrite Add_idem.
  assert (E1 : Add dnsRequest emptyQueue
    = {| queue := [dnsRequest]; dirty := {[ dnsRequest ]} ∪ ∅;
         processing := ∅; shuttingDown := false |}).
  { rewrite Add_fresh; [reflexivity | reflexivity | |]; apply not_elem_of_empty. }
  rewrite E1.
  assert (E2 : Add proxyServiceRequest
      {| queue := [dnsRequest]; dirty := {[ dnsRequest ]} ∪ ∅;
         processing := ∅; shuttingDown := false |}
    = {| queue := [dnsRequest; proxyServiceRequest];
         dirty := {[ proxyServiceRequest ]} ∪ ({[ dnsRequest ]} ∪ ∅);
         processing := ∅; shuttingDown := false |}).
  { rewrite Add_fresh; [reflexivity | reflexivity | simpl | apply not_elem_of_empty].
    rewrite elem_of_union, elem_of_singleton, elem_of_empty. intros [[=] | []]. }
  rewrite E2.
  rewrite Add_fresh; [reflexivity | reflexivity | simpl | apply not_elem_of_empty].
  rewrite !elem_of_union, !elem_of_singleton, elem_of_empty.
  intros [[=] | [[=] | []]].
Qed.

(** ** [PrettyYaml] on its own *)





(** *** When encoding fails *)







(** ** When [HashObject] degrades *)



(** ** Hashing a normalized value *)








(** * Examples *)

(** ** Instances for the examples

    The properties above hold for every choice of the collaborators.  The
    examples below run the functions, with the stand-ins defined here. *)

(** Strings that are ASCII only: nothing to fold or to coerce. *)
Definition asciiTables : UnicodeLib :=
  {| mapToLower := λ s, s; coerceUTF8 := λ s, s |}.

(** Dotted-decimal IPv4 literals, the one form of [net.ParseIP] the examples
    use: four fields of one to three digits, no leading zero, at most 255. *)
Fixpoint splitDots (field : string) (s : string) : list string :=
  match s with
  | EmptyString => [field]
  | String c rest =>
      if bool_decide (c = "."%char) then field :: splitDots EmptyString rest
      else splitDots (field ++ String c EmptyString) rest
  end.

Definition parseField (field : string) : option Z :=
  match field with
  | EmptyString => None
  | String c rest =>
      if (3 <? Z.of_nat (String.length field))
         || (bool_decide (c = "0"%char) && negb (bool_decide (rest = EmptyString)))
      then None
      else n ← atoiLoop 0 field; if n <=? 255 then Some n else None
  end.

Definition parseIPv4 (s : string) : option (list Z) :=
  match splitDots EmptyString s with
  | [a; b; c; d] =>
      a ← parseField a; b ← parseField b; c ← parseField c; d ← parseField d;
      Some [0; 0; 0; 0; 0; 0; 0; 0; 0; 0; 255; 255; a; b; c; d]
  | _ => None
  end.

Definition ipv4Only : NetLib := {| ParseIP := parseIPv4 |}.

Definition exampleAPI : RavenAPI :=
  {| LabelNodeProviderPublicIP := "raven.openyurt.io/public-ip";
     LabelEndpointCandidate := "raven.openyurt.io/endpoint-candidate";
     Tunnel := "tunnel";
     DefaultTunnelServerExposedPort := 4500 |}.

(** Two runs: one iterates a map in the order it was filled, the other in
    the opposite order. *)
Definition insertionOrder : MapOrder :=
  {| iterate := λ A m, m; iterate_perm := λ A m, reflexivity m |}.

Definition reverseOrder : MapOrder :=
  {| iterate := λ A m, reverse m; iterate_perm := λ A m, reverse_Permutation m |}.

(** A block-style emitter for documents of plain scalars: four columns per
    level, two after the dash of a sequence item. *)
Fixpoint spaces (n : nat) : string :=
  match n with
  | O => EmptyString
  | S n' => String " "%char (spaces n')
  end.

Fixpoint dropChars (n : nat) (s : string) : string :=
  match n, s with
  | S n', String _ rest => dropChars n' rest
  | _, _ => s
  end.

Fixpoint wholeFloat (n : nat) : float64 :=
  match n with
  | O => PrimFloat.zero
  | S n' => PrimFloat.add (wholeFloat n') PrimFloat.one
  end.

(** The whole numbers up to 99 as they are written; any other number is
    outside the examples. *)
Definition plainFloat (f : float64) : string :=
  match List.find (λ n, PrimFloat.eqb f (wholeFloat n)) (seq 0 100) with
  | Some n => pretty (Z.of_nat n)
  | None => ".nan"
  end.

Definition plainScalar (n : YNode) : option string :=
  match n with
  | YNull => Some "null"
  | YBool true => Some "true"
  | YBool false => Some "false"
  | YFloat f => Some (plainFloat f)
  | YString s => Some s
  | YSeq [] => Some "[]"
  | YMap [] => Some "{}"
  | _ => None
  end.

Fixpoint plainBlock (indent : nat) (n : YNode) : string :=
  match n with
  | YSeq items =>
      String.concat EmptyString
        (map (λ item,
           match plainScalar item with
           | Some text => spaces indent ++ "- " ++ text ++ LF
           | None =>
               spaces indent ++ "- " ++ dropChars (indent + 2) (plainBlock (indent + 2) item)
           end) items)
  | YMap members =>
      String.concat EmptyString
        (map (λ m,
           match m with
           | (key, value) =>
               match plainScalar value with
               | Some text => spaces indent ++ key ++ ": " ++ text ++ LF
               | None =>
                   spaces indent ++ key ++ ":" ++ LF
                     ++ plainBlock (4 * ((indent + 4) / 4)) value
               end
           end) members)
  | _ => EmptyString
  end.

Definition plainEmit (n : YNode) : string :=
  match plainScalar n with
  | Some text => text ++ LF
  | None => plainBlock 0 n
  end.

Definition plainYaml : YamlLib :=
  {| keyLess := stringLess;
     keyLess_irrefl := stringLess_irrefl;
     keyLess_trans := stringLess_trans;
     keyLess_total := stringLess_total;
     emit := plainEmit;
     emit_null := eq_refl;
     emit_empty_map := eq_refl |}.

(** ** Nodes *)

Definition edgeNode : Node :=
  {| Name := "edge-1";
     Labels := {[ "raven.openyurt.io/endpoint-candidate" := "false";
                  "raven.openyurt.io/public-ip" := "203.0.113.7" ]};
     CreationTimestamp := 1700000000;
     Addresses := [ {| addrType := "Hostname"; Address := "edge-1" |};
                    {| addrType := "InternalIP"; Address := "not-an-ip" |};
                    {| addrType := "ExternalIP"; Address := "203.0.113.7" |};
                    {| addrType := "InternalIP"; Address := "10.0.0.5" |};
                    {| addrType := "InternalIP"; Address := "10.0.0.6" |} ] |}.

Example GetNodeInternalIP_edgeNode :
  @GetNodeInternalIP ipv4Only edgeNode = "10.0.0.5".
Proof. vm_compute. reflexivity. Qed.

Example GetEdgeNodePublicIP_edgeNode :
  @GetEdgeNodePublicIP ipv4Only exampleAPI edgeNode = ("203.0.113.7", None).
Proof. vm_compute. reflexivity. Qed.

(** A node labelled as a candidate with the value "false" is no candidate
    for [IsNodeEndpointCandidate], and still gets an endpoint. *)
Example TryCreateActiveEndpointCandidate_edgeNode :
  @IsNodeEndpointCandidate exampleAPI edgeNode = false
  ∧ ∃ endpoint,
      @TryCreateActiveEndpointCandidate ipv4Only exampleAPI edgeNode = (Some endpoint, None)
      ∧ NodeName endpoint = "edge-1" ∧ PublicIP endpoint = "203.0.113.7"
      ∧ UnderNAT endpoint = false ∧ epType endpoint = "tunnel" ∧ Port endpoint = 4500
      ∧ Config endpoint !! ConfigCreationTimestampKey = Some "1700000000".
Proof.
  split; [vm_compute; reflexivity|].
  eexists. split; [vm_compute; reflexivity|].
  repeat split; vm_compute; reflexivity.
Qed.

(** ** Feature flags *)

(** A cluster whose global config map is [data]. *)
Definition clusterWith (data : gmap string string) : Client :=
  {| Get := λ namespace name,
       if bool_decide (namespace = "kube-system" ∧ name = "raven-cfg")
       then Some {| Data := data |} else None |}.

Definition tunnelOff : gmap string string :=
  {[ "enable-l3-tunnel" := "false"; "enable-l7-proxy" := "TRUE" ]}.

Example CheckServer_mixed_case :
  @CheckServer asciiTables (clusterWith tunnelOff) = (true, true).
Proof. vm_compute. reflexivity. Qed.


(** ** Ports *)

Example IsValidPort_examples :
  IsValidPort "10262" = true ∧ IsValidPort "0" = true ∧ IsValidPort "65535" = true
  ∧ IsValidPort "+443" = true ∧ IsValidPort "-0" = true ∧ IsValidPort "0080" = true
  ∧ IsValidPort "65536" = false ∧ IsValidPort "-1" = false ∧ IsValidPort "" = false
  ∧ IsValidPort " 80" = false ∧ IsValidPort "8o" = false ∧ IsValidPort "+" = false
  ∧ IsValidPort "99999999999999999999999999" = false.
Proof. vm_compute. repeat split. Qed.

Example Atoi_examples :
  Atoi "9223372036854775807" = (9223372036854775807, None)
  ∧ Atoi "9223372036854775808" = (9223372036854775807, Some ErrRange)
  ∧ Atoi "-9223372036854775808" = (-9223372036854775808, None)
  ∧ Atoi "-9223372036854775809" = (-9223372036854775808, Some ErrRange)
  ∧ Atoi "99999999999999999999x" = (9223372036854775807, Some ErrRange)
  ∧ Atoi "12x" = (0, Some ErrSyntax).
Proof. vm_compute. repeat split. Qed.

(** ** The configuration hash *)

Definition mapAB : GoValue :=
  GMap [("a", GFloat PrimFloat.one); ("b", GFloat PrimFloat.two)].
Definition mapBA : GoValue :=
  GMap [("b", GFloat PrimFloat.two); ("a", GFloat PrimFloat.one)].




Example computeHash_vectors :
  @computeHash asciiTables ""
    = "d14a028c2a3a2bc9476102bb288234c415a2b01f828ea62ac5b3e42f"
  ∧ @computeHash asciiTables "abc"
    = "23097d223405d8228642a477bda255b32aadbce4bda0b3f7e36c9da7"
  ∧ @computeHash asciiTables "abcdbcdecdefdefgefghfghighijhijkijkljklmklmnlmnomnopnopq"
    = "75388b16512776cc5dba5da1fd890150b0c6455cb4f58b1952522525".
Proof. vm_compute. repeat split. Qed.

Example HashObject_mapAB :
  @canonicalForm asciiTables plainYaml insertionOrder mapAB = "a: 1" ++ LF ++ "b: 2" ++ LF
  ∧ @HashObject asciiTables plainYaml insertionOrder mapAB
    = ("67f1089b3b392e61618c1ac26eafccfb2bb32a36974c12a62aa522f3", [])
  ∧ @HashObject asciiTables plainYaml reverseOrder mapBA
    = ("67f1089b3b392e61618c1ac26eafccfb2bb32a36974c12a62aa522f3", []).
Proof. vm_compute. repeat split. Qed.

(** A float that is not a number cannot be marshalled: the failure is
    logged and the digest is the one of [nil]. *)
Example HashObject_NaN :
  @HashObject asciiTables plainYaml insertionOrder (GSlice [GFloat PrimFloat.nan])
    = ("c7415109a740bc1695432b036295e1435149d19493c3c9fba84e15b4",
       [LogUnmarshal UnexpectedEndOfInput])
  ∧ @HashObject asciiTables plainYaml insertionOrder GNil
    = ("c7415109a740bc1695432b036295e1435149d19493c3c9fba84e15b4", []).
Proof. vm_compute. repeat split. Qed.



(** C4, as first stated, fails: the canonical forms of the empty map and of
    [nil] are not empty, and they differ, as do the two digests. *)
Lemma canonicalForm_of_empty_values :
  @canonicalForm asciiTables plainYaml insertionOrder (GMap []) = "{}" ++ LF
  ∧ @canonicalForm asciiTables plainYaml insertionOrder GNil = "null" ++ LF
  ∧ @canonicalForm asciiTables plainYaml insertionOrder (GMap []) ≠ ""
  ∧ @canonicalForm asciiTables plainYaml insertionOrder GNil ≠ ""
  ∧ @HashObject asciiTables plainYaml insertionOrder (GMap [])
    = ("5d8b8c7d189402a5343f6d77c7287baf87f89667f884367b81119575", [])
  ∧ @HashObject asciiTables plainYaml insertionOrder GNil
    = ("c7415109a740bc1695432b036295e1435149d19493c3c9fba84e15b4", []).
Proof.
  split; [vm_compute; reflexivity|]. split; [vm_compute; reflexivity|].
  split; [vm_compute; discriminate|]. split; [vm_compute; discriminate|].
  split; vm_compute; reflexivity.
Qed.

(** Called on its own, [PrettyYaml] returns the empty text for a value
    [yaml] refuses, and logs the failure. *)
Example PrettyYaml_chan :
  @PrettyYaml plainYaml insertionOrder (GMap [("c", GChan)])
    = ("", [LogYaml CannotMarshalType]).
Proof. vm_compute. reflexivity. Qed.

(** ** Further examples *)

(** The node [edgeNode] as a cloud provider might report it at another
    time: other addresses, the candidate label set to "true", one more
    label. *)
Definition edgeNodeRelabelled : Node :=
  {| Name := "edge-1";
     Labels := {[ "raven.openyurt.io/endpoint-candidate" := "true";
                  "raven.openyurt.io/public-ip" := "203.0.113.7";
                  "kubernetes.io/os" := "linux" ]};
     CreationTimestamp := 1700000000;
     Addresses := [ {| addrType := "InternalIP"; Address := "192.168.0.9" |} ] |}.

(** The endpoint of [edgeNode]. *)
Definition edgeEndpoint : Endpoint :=
  {| NodeName := "edge-1"; PublicIP := "203.0.113.7"; UnderNAT := false;
     epType := "tunnel"; Port := 4500;
     Config := {[ "config-creation-time" := "1700000000" ]} |}.

(** The witness of X4: two reports of one node. *)
Lemma TryCreateActiveEndpointCandidate_frame_witness :
  Name edgeNode = Name edgeNodeRelabelled
  ∧ CreationTimestamp edgeNode = CreationTimestamp edgeNodeRelabelled
  ∧ Labels edgeNode !! @LabelNodeProviderPublicIP exampleAPI
    = Labels edgeNodeRelabelled !! @LabelNodeProviderPublicIP exampleAPI
  ∧ is_Some (Labels edgeNode !! @LabelEndpointCandidate exampleAPI)
  ∧ is_Some (Labels edgeNodeRelabelled !! @LabelEndpointCandidate exampleAPI)
  ∧ (@TryCreateActiveEndpointCandidate ipv4Only exampleAPI edgeNode).1
    = (@TryCreateActiveEndpointCandidate ipv4Only exampleAPI edgeNodeRelabelled).1.
Proof.
  assert (H1 : Name edgeNode = Name edgeNodeRelabelled) by reflexivity.
  assert (H2 : CreationTimestamp edgeNode = CreationTimestamp edgeNodeRelabelled)
    by reflexivity.
  assert (H3 : Labels edgeNode !! @LabelNodeProviderPublicIP exampleAPI
               = Labels edgeNodeRelabelled !! @LabelNodeProviderPublicIP exampleAPI)
    by (vm_compute; reflexivity).
  assert (H4 : is_Some (Labels edgeNode !! @LabelEndpointCandidate exampleAPI))
    by (exists "false"; vm_compute; reflexivity).
  assert (H5 : is_Some (Labels edgeNodeRelabelled !! @LabelEndpointCandidate exampleAPI))
    by (exists "true"; vm_compute; reflexivity).
  repeat (split; [assumption|]).
  exact (@TryCreateActiveEndpointCandidate_frame ipv4Only exampleAPI
           edgeNode edgeNodeRelabelled H1 H2 H3 H4 H5).
Defined.

(** The witness of X5: the config map of [tunnelOff] holds "TRUE". *)
Lemma CheckServer_proxy_ascii_witness :
  Get (clusterWith tunnelOff) WorkingNamespace RavenGlobalConfig
    = Some {| Data := tunnelOff |}
  ∧ tunnelOff !! RavenEnableProxy = Some "TRUE"
  ∧ isASCII "TRUE" = true
  ∧ ((@CheckServer asciiTables (clusterWith tunnelOff)).1 = true ↔ spellsTrue "TRUE").
Proof.
  assert (H1 : Get (clusterWith tunnelOff) WorkingNamespace RavenGlobalConfig
               = Some {| Data := tunnelOff |}) by (vm_compute; reflexivity).
  assert (H2 : Data {| Data := tunnelOff |} !! RavenEnableProxy = Some "TRUE")
    by (vm_compute; reflexivity).
  assert (H3 : isASCII "TRUE" = true) by reflexivity.
  split; [exact H1|]. split; [exact H2|]. split; [exact H3|].
  exact (@CheckServer_proxy_ascii asciiTables (clusterWith tunnelOff)
           {| Data := tunnelOff |} "TRUE" H1 H2 H3).
Defined.

(** A config map with the proxy turned on like in [tunnelOff], the tunnel
    turned on, and one more key. *)
Definition tunnelOn : gmap string string :=
  {[ "enable-l3-tunnel" := "true"; "enable-l7-proxy" := "TRUE"; "log-level" := "4" ]}.

(** The witness of X18: two clusters that differ in the tunnel key. *)
Lemma CheckServer_frame_witness :
  Get (clusterWith tunnelOff) WorkingNamespace RavenGlobalConfig
    ≫= (λ cm, Data cm !! RavenEnableProxy)
  = Get (clusterWith tunnelOn) WorkingNamespace RavenGlobalConfig
    ≫= (λ cm, Data cm !! RavenEnableProxy)
  ∧ @CheckServer asciiTables (clusterWith tunnelOff)
    = @CheckServer asciiTables (clusterWith tunnelOn).
Proof.
  assert (H1 : Get (clusterWith tunnelOff) WorkingNamespace RavenGlobalConfig
                 ≫= (λ cm, Data cm !! RavenEnableProxy)
               = Get (clusterWith tunnelOn) WorkingNamespace RavenGlobalConfig
                 ≫= (λ cm, Data cm !! RavenEnableProxy))
    by (vm_compute; reflexivity).
  split; [exact H1|].
  exact (@CheckServer_frame asciiTables (clusterWith tunnelOff) (clusterWith tunnelOn) H1).
Defined.

(** The witness of X7: the digits "080". *)
Lemma IsValidPort_forms_witness :
  "080" ≠ "" ∧ allDigits "080" = true
  ∧ IsValidPort "+080" = IsValidPort "080"
  ∧ IsValidPort "0080" = IsValidPort "080"
  ∧ (IsValidPort "-080" = true ↔ decimalValue "080" = 0).
Proof.
  assert (H1 : "080" ≠ "") by discriminate.
  assert (H2 : allDigits "080" = true) by reflexivity.
  split; [exact H1|]. split; [exact H2|].
  exact (IsValidPort_forms "080" H1 H2).
Defined.

(** The witness of X8: the endpoint of [edgeNode]. *)
Lemma TryCreateActiveEndpointCandidate_timestamp_witness :
  @TryCreateActiveEndpointCandidate ipv4Only exampleAPI edgeNode = (Some edgeEndpoint, None)
  ∧ -9223372036854775808 ≤ CreationTimestamp edgeNode < 9223372036854775808
  ∧ ∃ text, Config edgeEndpoint !! ConfigCreationTimestampKey = Some text
            ∧ Atoi text = (CreationTimestamp edgeNode, None)
            ∧ ∀ key, key ≠ ConfigCreationTimestampKey → Config edgeEndpoint !! key = None.
Proof.
  assert (H1 : @TryCreateActiveEndpointCandidate ipv4Only exampleAPI edgeNode
               = (Some edgeEndpoint, None)) by (vm_compute; reflexivity).
  assert (H2 : -9223372036854775808 ≤ CreationTimestamp edgeNode < 9223372036854775808)
    by (simpl; lia).
  split; [exact H1|]. split; [exact H2|].
  exact (@TryCreateActiveEndpointCandidate_timestamp ipv4Only exampleAPI
           edgeNode edgeEndpoint H1 H2).
Defined.

(** The witness of X10: one name and one token. *)
Lemma FormatName_inj_witness :
  isUint32 3735928559
  ∧ FormatName 3735928559 "gw-cafe" = FormatName 3735928559 "gw-cafe"
  ∧ "gw-cafe" = "gw-cafe" ∧ 3735928559 = 3735928559.
Proof.
  assert (H1 : isUint32 3735928559) by (unfold isUint32; lia).
  split; [exact H1|]. split; [reflexivity|].
  exact (FormatName_inj 3735928559 3735928559 "gw-cafe" "gw-cafe" H1 H1 eq_refl).
Defined.

(** A queue in which the DNS config map waits while the gateway [gw-a] is
    being processed. *)
Definition busyQueue : WorkQueue :=
  {| queue := [dnsRequest]; dirty := {[ dnsRequest ]};
     processing := {[ namedRequest "gw-a" ]}; shuttingDown := false |}.

Lemma busyQueue_inv : queueInv busyQueue.
Proof.
  split; simpl.
  - apply NoDup_singleton.
  - intros item. rewrite list_elem_of_singleton, !elem_of_singleton.
    split; [|intros [-> _]; reflexivity].
    intros ->. split; [reflexivity | discriminate].
Qed.

(** The witness of X12: on [busyQueue] the gateway [gw-a] becomes dirty and,
    being processed, does not wait. *)
Lemma AddToWorkQueue_invariant_witness :
  queueInv busyQueue ∧ shuttingDown busyQueue = false ∧ "gw-a" ≠ ""
  ∧ queueInv (AddGatewayToWorkQueue "gw-a" busyQueue)
  ∧ queueInv (AddNodePoolToWorkQueue "gw-a" busyQueue)
  ∧ queueInv (AddDNSConfigmapToWorkQueue busyQueue)
  ∧ queueInv (AddGatewayProxyInternalService busyQueue)
  ∧ namedRequest "gw-a" ∈ dirty (AddGatewayToWorkQueue "gw-a" busyQueue)
  ∧ (namedRequest "gw-a" ∉ processing busyQueue →
     namedRequest "gw-a" ∈ queue (AddGatewayToWorkQueue "gw-a" busyQueue)).
Proof.
  assert (H3 : "gw-a" ≠ "") by discriminate.
  split; [exact busyQueue_inv|]. split; [reflexivity|]. split; [exact H3|].
  exact (AddToWorkQueue_invariant "gw-a" busyQueue busyQueue_inv eq_refl H3).
Defined.

(** The witness of X13: the gateway [gw-a]. *)
Lemma AddToWorkQueue_distinct_witness :
  "gw-a" ≠ ""
  ∧ queue (AddNodePoolToWorkQueue "gw-a"
             (AddGatewayToWorkQueue "gw-a"
                (AddGatewayProxyInternalService
                   (AddDNSConfigmapToWorkQueue emptyQueue))))
    = [dnsRequest; proxyServiceRequest; namedRequest "gw-a"].
Proof.
  assert (H1 : "gw-a" ≠ "") by discriminate.
  split; [exact H1|]. exact (AddToWorkQueue_distinct "gw-a" H1).
Defined.





